(** * Custom emoji of the server: caching state machine, usability policy,
      shortcode scanning and rendering

    A shallow embedding of [activities/models/emoji.py]:
    - [EmojiStates.handle_outdated], the handler of the [outdated] state;
    - [EmojiQuerySet.usable], the query-set filter per domain scope;
    - [Emoji.clean], [Emoji.is_usable], [Emoji.full_url], [Emoji.as_html];
    - [Emoji.imageify_emojis] and [Emoji.emojis_from_content], built on the
      compiled pattern [emoji_regex].

    Python objects that the handler mutates in place are threaded through
    explicitly; the database, the clock and the log of network requests form
    the [World] of a small state monad. *)

From Stdlib Require Import ZArith String Ascii Bool List.
From stdpp Require Import gmap strings list sorting pretty.

Set Default Proof Using "Type".

Local Open Scope string_scope.
Local Open Scope list_scope.
Local Open Scope Z_scope.

(** ** Python values *)

(** Truthiness of an optional string ([None] and the empty string are falsy). *)
Definition truthy_str (o : option string) : bool :=
  match o with
  | Some s => negb (String.eqb s EmptyString)
  | None => false
  end.

(** A stored or downloaded file.  Django's [File.__bool__] is [bool(self.name)]. *)
Record File := mkFile {
  file_name : string;
  file_url : string;
  file_content : string;
}.

Definition truthy_file (o : option File) : bool :=
  match o with
  | Some f => negb (String.eqb (file_name f) EmptyString)
  | None => false
  end.

Inductive PyError :=
| TypeError (msg : string)
| ValidationError (msg : string).

(** ** Data model *)

(** [users.Domain], as far as this module reads it: the primary key and the
    [local] flag. *)
Record Domain := mkDomain {
  domain_pk : string;
  domain_local : bool;
}.

(** The states declared by [EmojiStates]. *)
Inductive EmojiStates := outdated | updated.

Definition try_interval (s : EmojiStates) : option Z :=
  match s with
  | outdated => Some 300
  | updated => None
  end.

Definition force_initial (s : EmojiStates) : bool :=
  match s with
  | outdated => true
  | updated => false
  end.

(** [outdated.transitions_to(updated)] *)
Definition transitions_to (a b : EmojiStates) : bool :=
  match a, b with
  | outdated, updated => true
  | _, _ => false
  end.

Record Emoji := mkEmoji {
  pk : Z;
  shortcode : string;
  domain : option string;
  local : bool;
  public : option bool;
  object_uri : option string;
  mimetype : option string;
  file : option File;
  remote_url : option string;
  category : option string;
  state : EmojiStates;
  created : Z;
  updated_at : Z;
}.

Definition set_file (e : Emoji) (f : option File) : Emoji :=
  mkEmoji (pk e) (shortcode e) (domain e) (local e) (public e) (object_uri e)
          (mimetype e) f (remote_url e) (category e) (state e)
          (created e) (updated_at e).

Definition set_mimetype (e : Emoji) (m : option string) : Emoji :=
  mkEmoji (pk e) (shortcode e) (domain e) (local e) (public e) (object_uri e)
          m (file e) (remote_url e) (category e) (state e)
          (created e) (updated_at e).

Definition set_state (e : Emoji) (s : EmojiStates) : Emoji :=
  mkEmoji (pk e) (shortcode e) (domain e) (local e) (public e) (object_uri e)
          (mimetype e) (file e) (remote_url e) (category e) s
          (created e) (updated_at e).

Definition set_updated_at (e : Emoji) (t : Z) : Emoji :=
  mkEmoji (pk e) (shortcode e) (domain e) (local e) (public e) (object_uri e)
          (mimetype e) (file e) (remote_url e) (category e) (state e)
          (created e) t.

(** The lookups this module puts into [models.Q(...)] and [filter(...)]. *)
Inductive Q :=
| Q_local (b : bool)
| Q_public (b : bool)
| Q_public_isnull (b : bool)
| Q_domain (d : Domain)
| Q_shortcode_in (codes : list string)
| Q_or (a b : Q).

(** The two constructors of [core.uris] this module calls (the module itself is not
    part of the sources). *)
Inductive RelativeAbsoluteUrl :=
| AutoAbsoluteUrl (url : string)
| StaticAbsoluteUrl (path : string).

(** A text cut by the leftmost non-overlapping matches, as [findall] and
    [sub] walk it. *)
Inductive Segment :=
| Lit (c : ascii)
| Hit (group : string).

(** The argument [emojis] of [imageify_emojis] as Python sees it. *)
Inductive PyValue :=
| PyNone
| PyBool (b : bool)
| PyInt (n : Z)
| PyStr (s : string)
| PyTuple (items : list Emoji)
| PyList (items : list Emoji)
| PyQuerySet (rows : list Emoji).

(** [Config.system] and [settings.SETUP], as far as this module reads them. *)
Record Config := mkConfig {
  emoji_unreviewed_are_public : bool;
}.

Record Setup := mkSetup {
  REMOTE_TIMEOUT : Z;
  EMOJI_MAX_IMAGE_FILESIZE_KB : Z;
}.

(** ** The world: database rows, clock, network log *)

Record Request := mkRequest {
  req_url : string;
  req_timeout : Z;
  req_max_size : Z;
}.

Record World := mkWorld {
  db : gmap Z Emoji;
  clock : Z;
  requests : list Request;
}.

Definition M (A : Type) : Type := World -> A * World.

Definition ret {A} (a : A) : M A := fun w => (a, w).

Definition bind {A B} (m : M A) (k : A -> M B) : M B :=
  fun w => let (a, w') := m w in k a w'.

Notation "x <- m ;; k" := (bind m (fun x => k))
  (at level 100, m at next level, right associativity).

(** [instance.save()]: the [auto_now] column is stamped and the row with the
    instance's primary key is written. *)
Definition save (instance : Emoji) : M Emoji :=
  fun w =>
    let instance' := set_updated_at instance (clock w) in
    (instance', mkWorld (<[pk instance' := instance']> (db w)) (clock w) (requests w)).

(** The tuple [get_remote_file] hands back: a file or [None], a media type or
    [None]. *)
Definition FetchResult : Type := option File * option string.

(** ** Sample data *)

Definition sample_setup : Setup := mkSetup 5 1024.

Definition config_on : Config := mkConfig true.
Definition config_off : Config := mkConfig false.

(** A remote that refuses every request, and one that serves a picture. *)
Definition remote_down : Request -> FetchResult := fun _ => (None, None).

Definition remote_up : Request -> FetchResult :=
  fun r => (Some (mkFile (req_url r) "/media/emoji/blob.png" "PNG"),
            Some "image/png").

Definition remote_domain : Domain := mkDomain "remote.test" false.

(** A remote emoji waiting for its picture. *)
Definition blob_remote : Emoji :=
  mkEmoji 7 "blob" (Some "remote.test") false None
          (Some "https://remote.test/emoji/blob") (Some "image/png") None
          (Some "https://remote.test/blob.png") None outdated 10 10.

(** A local emoji with its picture. *)
Definition smile_local : Emoji :=
  mkEmoji 1 "smile" None true (Some true) None (Some "image/png")
          (Some (mkFile "emoji/smile.png" "/media/emoji/smile.png" "PNG"))
          None None updated 10 10.

(** A local emoji the moderators have hidden. *)
Definition hidden_local : Emoji :=
  mkEmoji 2 "secret" None true (Some false) None (Some "image/png") None
          None None updated 10 10.

(** A public local emoji with neither picture nor remote URL. *)
Definition plain_local : Emoji :=
  mkEmoji 3 "plain" None true (Some true) None (Some "image/png") None
          None None outdated 10 10.

Definition world0 : World :=
  mkWorld (<[7 := blob_remote]> (<[3 := plain_local]> ∅)) 1000 [].

Definition sample_relative (u : RelativeAbsoluteUrl) : string :=
  match u with
  | AutoAbsoluteUrl url => url
  | StaticAbsoluteUrl path => "/static/" +:+ path
  end.

(** A markup stripper that drops what stands between [<] and [>]. *)
Fixpoint strip_tags_from (inside : bool) (s : string) : string :=
  match s with
  | String c rest =>
      if Ascii.eqb c "<" then strip_tags_from true rest
      else if Ascii.eqb c ">" then
             if inside then strip_tags_from false rest
             else String c (strip_tags_from false rest)
           else if inside then strip_tags_from true rest
                else String c (strip_tags_from false rest)
  | EmptyString => EmptyString
  end.

Definition strip_tags : string -> string := strip_tags_from false.

Definition no_unicode_word : ascii -> bool := fun _ => false.


(** ** Tags and API objects *)

(** The [icon] of an ActivityPub emoji tag; [icon_category] is [None] when
    the key is absent or null. *)
Record Icon := mkIcon {
  icon_type : string;
  icon_mediaType : option string;
  icon_url : string;
  icon_category : option string;
}.

(** An ActivityPub emoji tag with the keys [to_ap_tag] writes and
    [by_ap_tag] reads: [{id, type, name, icon}]. *)
Record ApTag := mkApTag {
  tag_id : string;
  tag_type : string;
  tag_name : string;
  tag_icon : Icon;
}.

(** What [by_ap_tag] lets out instead of a record. *)
Inductive ApError :=
| KeyError (msg : string) (data : ApTag)
| MultipleObjectsReturned
| IntegrityError.

(** The outcome of [objects.get(...)]. *)
Inductive GetResult :=
| Found (row : Emoji)
| DoesNotExist
| Multiple.

(** The dict of [to_mastodon_json]. *)
Record MastodonEmoji := mkMastodonEmoji {
  m_shortcode : string;
  m_url : string;
  m_static_url : string;
  m_visible_in_picker : option bool;
  m_category : string;
}.

(** What surrounds the module: [settings.MAIN_DOMAIN]; the attribute
    [absolute] of a URL of [core.uris]; [str.lower] of Python on an arbitrary
    name (on the characters of a group it is [lower]).
    Modelled from the spec: the database behind [objects.create] is not part
    of the sources ("Storage collaborator ... must enforce the uniqueness
    invariants"); it gives a new row its primary key ([next_pk]) and may
    refuse the row ([violates]). *)
Record Site := mkSite {
  MAIN_DOMAIN : string;
  absolute : RelativeAbsoluteUrl -> string;
  str_lower : string -> string;
  next_pk : gmap Z Emoji -> Z;
  violates : gmap Z Emoji -> Emoji -> bool;
}.

(** A tag as a remote server sends it. *)
Definition blob_tag : ApTag :=
  mkApTag "https://remote.test/emoji/blob" "Emoji" ":Blob:"
          (mkIcon "Image" (Some "image/png") "https://remote.test/blob.png" None).

Definition party_tag : ApTag :=
  mkApTag "https://remote.test/emoji/party" "Emoji" ":party:"
          (mkIcon "Image" (Some "image/gif") "https://remote.test/party.gif"
                  (Some "fun")).

Definition sample_absolute (u : RelativeAbsoluteUrl) : string :=
  match u with
  | AutoAbsoluteUrl url => "https://example.test" +:+ url
  | StaticAbsoluteUrl path => "https://example.test/static/" +:+ path
  end.

(** A database that numbers rows one above the largest key and refuses a
    second row of one domain with one shortcode. *)
Definition sample_next_pk (rows : gmap Z Emoji) : Z :=
  1 + map_fold (fun k _ acc => Z.max k acc) 0 rows.

Definition sample_violates (rows : gmap Z Emoji) (row : Emoji) : bool :=
  bool_decide (domain row <> None /\
               Exists (fun kv => domain kv.2 = domain row /\
                                 shortcode kv.2 = shortcode row)
                      (map_to_list rows)).

(** Lower-casing of ASCII letters, for a site whose names are ASCII. *)
Definition sample_lower_char (c : ascii) : ascii :=
  if (65 <=? nat_of_ascii c)%nat && (nat_of_ascii c <=? 90)%nat
  then ascii_of_nat (nat_of_ascii c + 32) else c.

Fixpoint sample_lower (s : string) : string :=
  match s with
  | String c rest => String (sample_lower_char c) (sample_lower rest)
  | EmptyString => EmptyString
  end.

Definition sample_site : Site :=
  mkSite "example.test" sample_absolute sample_lower sample_next_pk sample_violates.

(** A local emoji stored under a shortcode with a capital letter. *)
Definition shout_local : Emoji :=
  mkEmoji 4 "Shout" None true (Some true) None (Some "image/png") None
          None None updated 10 10.

Section Emoji.

Variable SETUP : Setup.

(** What the remote answers to a request. *)
Variable remote : Request -> FetchResult.

(** Modelled from the spec: [core.files.get_remote_file] is not part of the
    sources.  "fetch(url, timeout, max_size_bytes) -> (bytes, media_type) |
    failure"; "no exception should escape to the caller"; "side effects:
    none beyond network I/O; does not mutate any record".  The request is
    appended to the world's log of network requests. *)
Definition get_remote_file (url : string) (timeout max_size : Z) : M FetchResult :=
  fun w =>
    let r := mkRequest url timeout max_size in
    (remote r, mkWorld (db w) (clock w) (requests w ++ [r])).

(** [EmojiStates.handle_outdated]: the instance after the call and the state
    the handler returns. *)
Definition handle_outdated (instance : Emoji) : M (Emoji * option EmojiStates) :=
  instance' <-
    (if truthy_str (remote_url instance) && negb (truthy_file (file instance)) then
       fm <- get_remote_file (default EmptyString (remote_url instance))
                             (REMOTE_TIMEOUT SETUP)
                             (EMOJI_MAX_IMAGE_FILESIZE_KB SETUP * 1024) ;;
       let (file, mimetype) := fm : FetchResult in
       if truthy_file file then
         save (set_mimetype (set_file instance file) mimetype)
       else ret instance
     else ret instance) ;;
  ret (instance', Some updated).

(** Modelled from the spec: the state machine driver ([stator]) is not part
    of the sources.  "invoke the registered handler for the entity's current
    state; apply the returned target state; persist the new state".  A
    handler that returns no state leaves the entity where it is, to be tried
    again once the state's [try_interval] has elapsed; [updated] has no
    handler. *)
Definition transition_perform (instance : Emoji) (s : EmojiStates) : M Emoji :=
  fun w =>
    (set_state instance s,
     mkWorld (alter (fun row => set_state row s) (pk instance) (db w))
             (clock w) (requests w)).

Definition transition_attempt (instance : Emoji) : M Emoji :=
  match state instance with
  | outdated =>
      r <- handle_outdated instance ;;
      match snd r with
      | Some s => transition_perform (fst r) s
      | None => ret (fst r)
      end
  | updated => ret instance
  end.

(** Earliest time of the next attempt for an entity last attempted at [t]. *)
Definition next_attempt (s : EmojiStates) (t : Z) : option Z :=
  match try_interval s with
  | Some i => Some (t + i)
  | None => None
  end.


(** ** Validation and the usability policy *)

Variable system : Config.

(** [Emoji.clean]; [super().clean()] does nothing. *)
Definition clean (self : Emoji) : PyError + unit :=
  if xorb (local self) (bool_decide (domain self = None)) then
    inl (ValidationError "Must be local or have a domain")
  else inr tt.

(** [Emoji.fullcode] *)
Definition fullcode (self : Emoji) : string :=
  ":" +:+ shortcode self +:+ ":".

(** [Emoji.is_usable]: [self.public or (self.public is None and flag)]. *)
Definition is_usable (self : Emoji) : bool :=
  match public self with
  | Some true => true
  | _ => bool_decide (public self = None) && emoji_unreviewed_are_public system
  end.

(** ** Query sets *)

(** A comparison with a NULL column selects no row. *)
Fixpoint Q_holds (q : Q) (row : Emoji) : bool :=
  match q with
  | Q_local b => Bool.eqb (local row) b
  | Q_public b => bool_decide (public row = Some b)
  | Q_public_isnull b => Bool.eqb (bool_decide (public row = None)) b
  | Q_domain d => bool_decide (domain row = Some (domain_pk d))
  | Q_shortcode_in codes => bool_decide (shortcode row ∈ codes)
  | Q_or a b => Q_holds a row || Q_holds b row
  end.

(** A query set is the list of rows it selects. *)
Definition qs_filter (q : Q) (qs : list Emoji) : list Emoji :=
  List.filter (Q_holds q) qs.

(** [domain is None or domain.local] *)
Definition none_or_local (domain : option Domain) : bool :=
  match domain with
  | None => true
  | Some d => domain_local d
  end.

(** [EmojiQuerySet.usable] *)
Definition usable (self : list Emoji) (domain : option Domain) : list Emoji :=
  let visible_q :=
    if none_or_local domain then Q_local true
    else
      let visible_q := Q_public true in
      if emoji_unreviewed_are_public system
      then Q_or visible_q (Q_public_isnull true)
      else visible_q in
  let qs := qs_filter visible_q self in
  match domain with
  | Some d => if negb (domain_local d) then qs_filter (Q_domain d) qs else qs
  | None => qs
  end.

(** ** URLs and markup *)

(** The attribute [relative] of such a URL. *)
Variable relative : RelativeAbsoluteUrl -> string.

(** [self.file.url] *)
Definition url_of (o : option File) : string :=
  match o with
  | Some f => file_url f
  | None => EmptyString
  end.

(** [Emoji.full_url] *)
Definition full_url (self : Emoji) : RelativeAbsoluteUrl :=
  if is_usable self then
    if truthy_file (file self) then AutoAbsoluteUrl (url_of (file self))
    else if truthy_str (remote_url self)
         then AutoAbsoluteUrl ("/proxy/emoji/" +:+ pretty (pk self) +:+ "/")
         else StaticAbsoluteUrl "img/blank-emoji-128.png"
  else StaticAbsoluteUrl "img/blank-emoji-128.png".

Definition dquote : string := String (ascii_of_nat 34) EmptyString.

(** The [<img>] element of [as_html] for a source and a shortcode. *)
Definition img (src code : string) : string :=
  "<img src=" +:+ dquote +:+ src +:+ dquote +:+
  " class=" +:+ dquote +:+ "emoji" +:+ dquote +:+
  " alt=" +:+ dquote +:+ "Emoji " +:+ code +:+ dquote +:+ ">".

(** [Emoji.as_html] *)
Definition as_html (self : Emoji) : string :=
  if is_usable self then img (relative (full_url self)) (shortcode self)
  else fullcode self.


(** ** The pattern [emoji_regex]: [\B:([a-zA-Z0-9(_)-]+):\B] *)

(** Characters with a code below 128 are ASCII; for the others the
    word-ness [\w] of Python's [re] comes from the Unicode tables. *)
Variable unicode_word : ascii -> bool.

Definition between (lo hi : nat) (c : ascii) : bool :=
  (lo <=? nat_of_ascii c)%nat && (nat_of_ascii c <=? hi)%nat.

Definition is_lower (c : ascii) : bool := between 97 122 c.
Definition is_upper (c : ascii) : bool := between 65 90 c.
Definition is_digit (c : ascii) : bool := between 48 57 c.

(** [\w] *)
Definition is_word (c : ascii) : bool :=
  if (nat_of_ascii c <? 128)%nat
  then is_lower c || is_upper c || is_digit c || Ascii.eqb c "_"
  else unicode_word c.

(** [[a-zA-Z0-9(_)-]] *)
Definition in_class (c : ascii) : bool :=
  is_lower c || is_upper c || is_digit c ||
  Ascii.eqb c "(" || Ascii.eqb c "_" || Ascii.eqb c ")" || Ascii.eqb c "-".

(** Word-ness of a neighbour; outside the text counts as not a word
    character. *)
Definition word_at (c : option ascii) : bool :=
  match c with
  | Some c => is_word c
  | None => false
  end.

(** [\B] between the character before and the character after. *)
Definition non_boundary (before after : option ascii) : bool :=
  Bool.eqb (word_at before) (word_at after).

Definition first_char (s : string) : option ascii :=
  match s with
  | String c _ => Some c
  | EmptyString => None
  end.

(** [:\B] at the front of [s]. *)
Definition closes (s : string) : bool :=
  match s with
  | String c rest => Ascii.eqb c ":" && non_boundary (Some c) (first_char rest)
  | EmptyString => false
  end.

(** [([a-zA-Z0-9(_)-]+):\B] at the front of [s]: the group.  The
    repetition is greedy: it first tries to take more, and gives characters
    back only when the rest of the pattern fails. *)
Fixpoint group_closed (s : string) : option string :=
  match s with
  | String c rest =>
      if in_class c then
        match group_closed rest with
        | Some g => Some (String c g)
        | None => if closes rest then Some (String c EmptyString) else None
        end
      else None
  | EmptyString => None
  end.

(** The whole pattern at the front of [s], with [before] the character in
    front of it: the group of the match. *)
Definition match_at (before : option ascii) (s : string) : option string :=
  match s with
  | String c rest =>
      if non_boundary before (Some c) && Ascii.eqb c ":"
      then group_closed rest
      else None
  | EmptyString => None
  end.

(** [skip] counts the characters of the current match still to pass. *)
Fixpoint scan (before : option ascii) (s : string) (skip : nat) : list Segment :=
  match s with
  | String c rest =>
      match skip with
      | S k => scan (Some c) rest k
      | O =>
          match match_at before s with
          | Some g => Hit g :: scan (Some c) rest (S (String.length g))
          | None => Lit c :: scan (Some c) rest 0
          end
      end
  | EmptyString => []
  end.

(** [match.group()] *)
Definition whole (g : string) : string := ":" +:+ g +:+ ":".

(** [emoji_regex.findall(text)] *)
Definition findall (text : string) : list string :=
  omap (fun seg => match seg with Hit g => Some g | Lit _ => None end)
       (scan None text 0).

(** [emoji_regex.sub(repl, text)] *)
Definition sub (repl : string -> string) (text : string) : string :=
  foldr (fun seg out =>
           match seg with
           | Lit c => String c out
           | Hit g => repl g +:+ out
           end) EmptyString (scan None text 0).

(** [str.lower] on the characters the group can hold. *)
Definition lower_char (c : ascii) : ascii :=
  if is_upper c then ascii_of_nat (nat_of_ascii c + 32) else c.

Fixpoint lower (s : string) : string :=
  match s with
  | String c rest => String (lower_char c) (lower rest)
  | EmptyString => EmptyString
  end.

(** ** Rendering and extraction *)

Definition truthy (v : PyValue) : bool :=
  match v with
  | PyNone => false
  | PyBool b => b
  | PyInt n => negb (n =? 0)
  | PyStr s => negb (String.eqb s EmptyString)
  | PyTuple items | PyList items | PyQuerySet items =>
      negb (bool_decide (length items = 0%nat))
  end.

(** The class attribute [Emoji.locals], a dict in insertion order. *)
Variable locals : list (string * Emoji).

(** [{emoji.shortcode: emoji.as_html() for emoji in emoji_set if emoji.is_usable}] *)
Definition possible_matches (emoji_set : list Emoji) : gmap string string :=
  foldl (fun m emoji => <[shortcode emoji := as_html emoji]> m) ∅
        (List.filter is_usable emoji_set).

Definition replacer (table : gmap string string) (group : string) : string :=
  let fullcode := lower group in
  match table !! fullcode with
  | Some html => html
  | None => whole group
  end.

(** The list [emoji_set] once [emojis] has been taken in. *)
Definition emoji_set_of (emojis : PyValue) (include_local : bool)
  : PyError + list Emoji :=
  let emoji_set := if include_local then locals.*2 else [] in
  if truthy emojis then
    match emojis with
    | PyQuerySet items | PyList items => inr (emoji_set ++ items)
    | _ => inl (TypeError "Unsupported type for emojis")
    end
  else inr emoji_set.

(** [Emoji.imageify_emojis] *)
Definition imageify_emojis (content : string) (emojis : PyValue)
    (include_local : bool) : PyError + string :=
  match emoji_set_of emojis include_local with
  | inl e => inl e
  | inr emoji_set => inr (sub (replacer (possible_matches emoji_set)) content)
  end.

(** [core.html.strip_html] is not part of the sources; it removes markup. *)
Variable strip_html : string -> string.

(** The table behind [Emoji.objects]. *)
Variable objects : list Emoji.

(** [sorted({emoji.lower() for emoji in emoji_hits})] *)
Definition shortcodes (content : string) : list string :=
  let emoji_hits := findall (strip_html content) in
  merge_sort String.le (elements (list_to_set (lower <$> emoji_hits) : gset string)).

(** [Emoji.emojis_from_content] *)
Definition emojis_from_content (content : string) (domain : option Domain)
  : list Emoji :=
  let emojis := shortcodes content in
  qs_filter (Q_shortcode_in emojis)
    (usable (qs_filter (Q_local (none_or_local domain)) objects) domain).


(** ** What the pattern means *)

Fixpoint all_chars (p : ascii -> bool) (s : string) : bool :=
  match s with
  | String c rest => p c && all_chars p rest
  | EmptyString => true
  end.

(** [s] starts with an occurrence of the pattern around the group [g],
    [before] being the character in front of [s]: a colon, the group, a
    colon; the group is not empty and holds characters of the class only;
    the character in front of the first colon, if there is one, is not a
    word character, and neither is the character behind the second colon. *)
Definition Matches (before : option ascii) (s : string) (g : string) : Prop :=
  exists rest,
    s = ":" +:+ g +:+ ":" +:+ rest /\
    g <> EmptyString /\
    all_chars in_class g = true /\
    word_at before = false /\
    word_at (first_char rest) = false.

(** A text cut from left to right: a character is passed as it is only
    where no occurrence starts, and an occurrence is taken whole. *)
Inductive Cut : option ascii -> string -> list Segment -> Prop :=
| Cut_end before : Cut before EmptyString []
| Cut_lit before c s segs :
    (forall g, ~ Matches before (String c s) g) ->
    Cut (Some c) s segs ->
    Cut before (String c s) (Lit c :: segs)
| Cut_hit before g rest segs :
    Matches before (whole g +:+ rest) g ->
    Cut (Some ":"%char) rest segs ->
    Cut before (whole g +:+ rest) (Hit g :: segs).

(** The characters a segment stands for in the text. *)
Definition seg_text (seg : Segment) : string :=
  match seg with
  | Lit c => String c EmptyString
  | Hit g => whole g
  end.

Definition join (parts : list string) : string :=
  foldr String.append EmptyString parts.

(** The shapes of [emojis] the renderer accepts. *)
Definition supported (v : PyValue) : bool :=
  match v with
  | PyNone | PyList _ | PyQuerySet _ => true
  | _ => false
  end.

(** The records an accepted [emojis] carries. *)
Definition records_of (v : PyValue) : list Emoji :=
  match v with
  | PyList items | PyQuerySet items => items
  | _ => []
  end.

(** The last character of [w], or [before] when [w] is empty. *)
Fixpoint last_char (before : option ascii) (w : string) : option ascii :=
  match w with
  | String c rest => last_char (Some c) rest
  | EmptyString => before
  end.


(** ** Further definitions *)

(** Every colon of [s] stands right after a word character, [before] being
    the character in front of [s]. *)
Fixpoint colons_follow_words (before : option ascii) (s : string) : bool :=
  match s with
  | String c rest =>
      (negb (Ascii.eqb c ":") || word_at before) &&
      colons_follow_words (Some c) rest
  | EmptyString => true
  end.

(** The characters a lower-cased group can hold: [[a-z0-9(_)-]]. *)
Definition in_lower_class (c : ascii) : bool :=
  is_lower c || is_digit c ||
  Ascii.eqb c "(" || Ascii.eqb c "_" || Ascii.eqb c ")" || Ascii.eqb c "-".

(** [d[k] = v] on a dict kept in insertion order: a key that is there keeps
    its place and takes the new value, a new key goes to the end. *)
Fixpoint dict_set (k : string) (v : Emoji) (d : list (string * Emoji))
  : list (string * Emoji) :=
  match d with
  | [] => [(k, v)]
  | (k', v') :: rest =>
      if String.eqb k' k then (k, v) :: rest else (k', v') :: dict_set k v rest
  end.

(** [Emoji.load_locals]:
    [{x.shortcode: x for x in Emoji.objects.usable().filter(local=True)}] *)
Definition load_locals : list (string * Emoji) :=
  foldl (fun d x => dict_set (shortcode x) x d) []
        (qs_filter (Q_local true) (usable objects None)).

(** ** Serialisation *)

(** What surrounds the module here: [settings.MAIN_DOMAIN], the attribute
    [absolute] of a URL of [core.uris], [str.lower] of Python on an arbitrary
    name, and the database behind [objects.create]. *)
Variable site : Site.

(** [Emoji.to_ap_tag] *)
Definition to_ap_tag (self : Emoji) : ApTag :=
  mkApTag
    (if truthy_str (object_uri self) then default EmptyString (object_uri self)
     else "https://" +:+ MAIN_DOMAIN site +:+ "/emoji/" +:+ pretty (pk self) +:+ "/")
    "Emoji"
    (shortcode self)
    (mkIcon "Image" (mimetype self) (absolute site (full_url self)) None).

(** [Emoji.to_mastodon_json] *)
Definition to_mastodon_json (self : Emoji) : MastodonEmoji :=
  let url := absolute site (full_url self) in
  mkMastodonEmoji
    (shortcode self)
    url
    (if truthy_str (remote_url self) then default EmptyString (remote_url self)
     else url)
    (public self)
    (if truthy_str (category self) then default EmptyString (category self)
     else EmptyString).

(** ** Lookup and creation from a tag *)

(** [s.lstrip(":")] and [s.rstrip(":")] *)
Fixpoint lstrip_colons (s : string) : string :=
  match s with
  | String c rest => if Ascii.eqb c ":" then lstrip_colons rest else s
  | EmptyString => EmptyString
  end.

Fixpoint rstrip_colons (s : string) : string :=
  match s with
  | String c rest =>
      match rstrip_colons rest with
      | EmptyString => if Ascii.eqb c ":" then EmptyString else String c EmptyString
      | rest' => String c rest'
      end
  | EmptyString => EmptyString
  end.

(** [s.strip(":")] *)
Definition strip_colons (s : string) : string := rstrip_colons (lstrip_colons s).

(** [s[:n]] *)
Fixpoint take_chars (n : nat) (s : string) {struct s} : string :=
  match s with
  | String c rest =>
      match n with
      | S n' => String c (take_chars n' rest)
      | O => EmptyString
      end
  | EmptyString => EmptyString
  end.

(** [cls.objects.get(object_uri=uri)] *)
Definition get_by_object_uri (uri : string) (w : World) : GetResult :=
  match (map_to_list (filter (fun kv => object_uri kv.2 = Some uri) (db w))).*2 with
  | [] => DoesNotExist
  | [row] => Found row
  | _ => Multiple
  end.

(** The state a new record starts in: the one declared with
    [force_initial=True]. *)
Definition initial_state : EmojiStates :=
  if force_initial outdated then outdated else updated.

(** [cls.objects.create(shortcode=..., domain=..., local=..., object_uri=...,
    mimetype=..., category=..., remote_url=...)]: the fields not given take
    the defaults of the model, both time stamps the time of the insert. *)
Definition objects_create (shortcode : string) (domain : option string)
    (local : bool) (object_uri : option string) (mimetype : option string)
    (category : option string) (remote_url : option string)
  : M (ApError + Emoji) :=
  fun w =>
    let row := mkEmoji (next_pk site (db w)) shortcode domain local None object_uri
                       mimetype None remote_url category initial_state
                       (clock w) (clock w) in
    if violates site (db w) row then (inl IntegrityError, w)
    else (inr row, mkWorld (<[pk row := row]> (db w)) (clock w) (requests w)).

(** [Emoji.by_ap_tag] *)
Definition by_ap_tag (domain : Domain) (data : ApTag) (create : bool)
  : M (ApError + Emoji) :=
  fun w =>
    match get_by_object_uri (tag_id data) w with
    | Found row => (inr row, w)
    | Multiple => (inl MultipleObjectsReturned, w)
    | DoesNotExist =>
        if negb create then
          (inl (KeyError ("No emoji with ID " +:+ tag_id data) data), w)
        else
          let shortcode := strip_colons (str_lower site (tag_name data)) in
          let icon := tag_icon data in
          let category :=
            take_chars 100 (if truthy_str (icon_category icon)
                            then default EmptyString (icon_category icon)
                            else EmptyString) in
          objects_create shortcode
            (if domain_local domain then None else Some (domain_pk domain))
            (domain_local domain)
            (Some (tag_id data))
            (icon_mediaType icon)
            (Some category)
            (Some (icon_url icon))
            w
    end.

(** No colon in [s]. *)
Definition colon_free (s : string) : bool :=
  all_chars (fun c => negb (Ascii.eqb c ":")) s.

(** The row [by_ap_tag] asks the database to insert for a tag. *)
Definition new_row (d : Domain) (data : ApTag) (w : World) : Emoji :=
  mkEmoji (next_pk site (db w))
          (strip_colons (str_lower site (tag_name data)))
          (if domain_local d then None else Some (domain_pk d))
          (domain_local d)
          None
          (Some (tag_id data))
          (icon_mediaType (tag_icon data))
          None
          (Some (icon_url (tag_icon data)))
          (Some (take_chars 100
                   (if truthy_str (icon_category (tag_icon data))
                    then default EmptyString (icon_category (tag_icon data))
                    else EmptyString)))
          initial_state (clock w) (clock w).
(** ** Strings *)

Lemma app_cons c (s t : string) : String c s +:+ t = String c (s +:+ t).
Proof. reflexivity. Qed.

Lemma app_empty_l (t : string) : EmptyString +:+ t = t.
Proof. reflexivity. Qed.

Lemma app_empty_r (s : string) : s +:+ EmptyString = s.
Proof. induction s as [|c s IH]; [done|]. by rewrite app_cons, IH. Qed.

Lemma app_assoc' (s t u : string) : (s +:+ t) +:+ u = s +:+ (t +:+ u).
Proof. induction s as [|c s IH]; [done|]. by rewrite !app_cons, IH. Qed.

Lemma length_app (s t : string) :
  String.length (s +:+ t) = (String.length s + String.length t)%nat.
Proof. induction s as [|c s IH]; [done|]. rewrite app_cons. simpl. by rewrite IH. Qed.

Lemma whole_cons g : whole g = String ":" (g +:+ ":").
Proof. reflexivity. Qed.

(** ** The matcher against the meaning of the pattern *)

Lemma colon_not_in_class : in_class ":" = false.
Proof. reflexivity. Qed.

Lemma closes_inv s :
  closes s = true ->
  exists rest, s = String ":" rest /\
               non_boundary (Some ":"%char) (first_char rest) = true.
Proof.
  destruct s as [|c rest]; simpl; [done|].
  intros [Hc Hb]%andb_true_iff. apply Ascii.eqb_eq in Hc as ->. eauto.
Qed.

Lemma group_closed_sound s g :
  group_closed s = Some g ->
  exists rest, s = g +:+ String ":" rest /\
               g <> EmptyString /\
               all_chars in_class g = true /\
               non_boundary (Some ":"%char) (first_char rest) = true.
Proof.
  revert g. induction s as [|c s IH]; intros g; simpl; [done|].
  destruct (in_class c) eqn:Hc; [|done].
  destruct (group_closed s) as [g'|] eqn:Hg.
  - intros [= <-]. destruct (IH g' eq_refl) as (rest & -> & _ & Hall & Hb).
    exists rest. rewrite app_cons. simpl. rewrite Hc, Hall. done.
  - destruct (closes s) eqn:Hcl; [|done]. intros [= <-].
    destruct (closes_inv _ Hcl) as (rest & -> & Hb).
    exists rest. simpl. rewrite Hc. done.
Qed.

Lemma group_closed_complete g rest :
  g <> EmptyString ->
  all_chars in_class g = true ->
  non_boundary (Some ":"%char) (first_char rest) = true ->
  group_closed (g +:+ String ":" rest) = Some g.
Proof.
  induction g as [|c g IH]; [done|]. intros _ [Hc Hall]%andb_true_iff Hb.
  rewrite app_cons. simpl. rewrite Hc.
  destruct g as [|c' g].
  - rewrite app_empty_l. simpl. rewrite Hb. done.
  - rewrite IH; done.
Qed.

(** Next to a colon, [\B] holds exactly where the neighbour is not a word
    character. *)
Lemma non_boundary_colon_r before :
  non_boundary before (Some ":"%char) = negb (word_at before).
Proof. unfold non_boundary. cbn [word_at]. by destruct (word_at before). Qed.

Lemma non_boundary_colon_l after :
  non_boundary (Some ":"%char) after = negb (word_at after).
Proof. unfold non_boundary. cbn [word_at]. by destruct (word_at after). Qed.

Lemma whole_app g rest : whole g +:+ rest = ":" +:+ g +:+ ":" +:+ rest.
Proof. unfold whole. by rewrite !app_assoc'. Qed.

Lemma match_at_Matches before s g :
  match_at before s = Some g <-> Matches before s g.
Proof.
  split.
  - destruct s as [|c s]; simpl; [done|].
    destruct (non_boundary before (Some c) && Ascii.eqb c ":") eqn:H; [|done].
    apply andb_true_iff in H as [Hb Hc]. apply Ascii.eqb_eq in Hc as ->.
    intros (rest & -> & Hne & Hall & Hb')%group_closed_sound.
    rewrite non_boundary_colon_r in Hb. rewrite non_boundary_colon_l in Hb'.
    apply negb_true_iff in Hb, Hb'.
    exists rest. rewrite app_cons, app_empty_l. done.
  - intros (rest & -> & Hne & Hall & Hb & Hb').
    rewrite app_cons, app_empty_l. simpl.
    rewrite non_boundary_colon_r, Hb. simpl.
    apply group_closed_complete; [done..|].
    by rewrite non_boundary_colon_l, Hb'.
Qed.

Lemma match_at_None before s :
  match_at before s = None -> forall g, ~ Matches before s g.
Proof. intros H g Hg%match_at_Matches. congruence. Qed.

(** ** The walk against the cut *)

Lemma scan_skip w rest before :
  scan before (w +:+ rest) (String.length w) = scan (last_char before w) rest 0.
Proof.
  revert before. induction w as [|c w IH]; intros before; [done|].
  rewrite app_cons. simpl. apply IH.
Qed.

Lemma last_char_app_colon before g :
  last_char before (g +:+ ":") = Some ":"%char.
Proof. revert before. induction g as [|c g IH]; intros before; [done|]. apply IH. Qed.

Lemma scan_hit before g rest :
  Matches before (whole g +:+ rest) g ->
  scan before (whole g +:+ rest) 0 = Hit g :: scan (Some ":"%char) rest 0.
Proof.
  intros Hm. pose proof Hm as Hm'. apply match_at_Matches in Hm'.
  rewrite whole_cons, app_cons in *. cbn [scan]. rewrite Hm'. f_equal.
  replace (S (String.length g)) with (String.length (g +:+ ":")).
  - rewrite scan_skip. by rewrite last_char_app_colon.
  - rewrite length_app. simpl. lia.
Qed.

Lemma scan_lit before c s :
  match_at before (String c s) = None ->
  scan before (String c s) 0 = Lit c :: scan (Some c) s 0.
Proof. intros H. cbn [scan]. by rewrite H. Qed.

Lemma scan_Cut_bounded n : forall s before,
  (String.length s <= n)%nat -> Cut before s (scan before s 0).
Proof.
  induction n as [|n IH]; intros s before Hn.
  - destruct s; [constructor | simpl in Hn; lia].
  - destruct s as [|c s]; [constructor|].
    destruct (match_at before (String c s)) as [g|] eqn:Hm.
    + pose proof Hm as Hm'. apply match_at_Matches in Hm'.
      destruct Hm' as (rest & E & Hrest). rewrite <- whole_app in E. rewrite E in *.
      assert (Matches before (whole g +:+ rest) g) as HM
        by (exists rest; by rewrite whole_app).
      rewrite (scan_hit _ _ _ HM). constructor; [done|].
      apply IH. rewrite whole_cons, app_cons, app_assoc' in Hn.
      simpl in Hn. rewrite length_app in Hn. simpl in Hn.
      rewrite app_empty_l in Hn. lia.
    + rewrite (scan_lit _ _ _ Hm). constructor.
      * by apply match_at_None.
      * apply IH. simpl in Hn. lia.
Qed.

Lemma scan_Cut before s : Cut before s (scan before s 0).
Proof. by apply (scan_Cut_bounded (String.length s)). Qed.

Lemma join_cons x xs : join (x :: xs) = x +:+ join xs.
Proof. reflexivity. Qed.

(** A cut loses no character. *)
Lemma Cut_join before s segs : Cut before s segs -> join (seg_text <$> segs) = s.
Proof.
  induction 1 as [|before c s segs _ _ IH|before g rest segs _ _ IH]; [done|..].
  - by rewrite fmap_cons, join_cons, IH.
  - by rewrite fmap_cons, join_cons, IH.
Qed.


(** ** Lower-casing, the set of codes and the lookup table *)

Lemma lower_char_idemp c : lower_char (lower_char c) = lower_char c.
Proof. destruct c as [[] [] [] [] [] [] [] []]; reflexivity. Qed.

Lemma lower_idemp s : lower (lower s) = lower s.
Proof. induction s as [|c s IH]; [done|]. simpl. by rewrite lower_char_idemp, IH. Qed.

Lemma elem_of_findall g text : g ∈ findall text <-> Hit g ∈ scan None text 0.
Proof.
  unfold findall. rewrite list_elem_of_omap. split.
  - intros ([c|g'] & Hin & [=]). by subst.
  - intros Hin. by exists (Hit g).
Qed.

Lemma sub_segments repl segs :
  foldr (fun seg out =>
           match seg with
           | Lit c => String c out
           | Hit g => repl g +:+ out
           end) EmptyString segs
  = join ((fun seg => match seg with
                      | Lit c => String c EmptyString
                      | Hit g => repl g
                      end) <$> segs).
Proof.
  induction segs as [|[c|g] segs IH]; [done|..];
    rewrite fmap_cons, join_cons; simpl; by rewrite IH.
Qed.

Lemma possible_matches_from (m : gmap string string) (l : list Emoji) code html :
  foldl (fun m emoji => <[shortcode emoji := as_html emoji]> m) m l !! code = Some html ->
  m !! code = Some html \/
  exists e, e ∈ l /\ shortcode e = code /\ html = as_html e.
Proof.
  revert m. induction l as [|e l IH]; intros m; simpl; [by left|].
  intros [H | (e' & Hin & Hc & Hh)]%IH.
  - destruct (decide (shortcode e = code)) as [<-|Hne].
    + rewrite lookup_insert_eq in H. injection H as <-.
      right. exists e. split; [left|done].
    + rewrite lookup_insert_ne in H by done. by left.
  - right. exists e'. split; [by right|done].
Qed.

Lemma possible_matches_covers (m : gmap string string) (l : list Emoji) code :
  is_Some (m !! code) \/ (exists e, e ∈ l /\ shortcode e = code) ->
  is_Some (foldl (fun m emoji => <[shortcode emoji := as_html emoji]> m) m l !! code).
Proof.
  revert m. induction l as [|e l IH]; intros m; simpl.
  - intros [H | (e & Hin & _)]; [done|]. by apply elem_of_nil in Hin.
  - intros [H | (e' & Hin & Hc)]; apply IH.
    + left. destruct (decide (shortcode e = code)) as [<-|Hne].
      * rewrite lookup_insert_eq. eauto.
      * by rewrite lookup_insert_ne.
    + apply elem_of_cons in Hin as [-> | Hin].
      * left. rewrite Hc, lookup_insert_eq. eauto.
      * right. eauto.
Qed.

Lemma possible_matches_Some emoji_set code html :
  possible_matches emoji_set !! code = Some html ->
  exists e, e ∈ emoji_set /\ is_usable e = true /\ shortcode e = code /\
            html = img (relative (full_url e)) (shortcode e).
Proof.
  unfold possible_matches.
  intros [H | (e & Hin & Hc & Hh)]%possible_matches_from; [by rewrite lookup_empty in H|].
  apply list_elem_of_In, filter_In in Hin as [Hin Hu].
  exists e. rewrite <- list_elem_of_In in Hin. split_and?; try done.
  subst html. unfold as_html. by rewrite Hu.
Qed.

Lemma possible_matches_is_Some emoji_set code :
  is_Some (possible_matches emoji_set !! code) <->
  exists e, e ∈ emoji_set /\ is_usable e = true /\ shortcode e = code.
Proof.
  split.
  - intros [html (e & ? & ? & ? & _)%possible_matches_Some]. eauto.
  - intros (e & Hin & Hu & Hc). apply possible_matches_covers. right.
    exists e. split; [|done]. apply list_elem_of_In, filter_In.
    by rewrite <- list_elem_of_In.
Qed.



Lemma last_char_app before (s t : string) :
  last_char before (s +:+ t) = last_char (last_char before s) t.
Proof.
  revert before. induction s as [|c s IH]; intros before; [done|].
  rewrite app_cons. cbn [last_char]. apply IH.
Qed.

(** Every group of a cut stands in the text between two colons, and
    neither the character in front of the first colon nor the one behind
    the second is a word character. *)
Lemma Cut_occurrence before s segs g :
  Cut before s segs -> Hit g ∈ segs ->
  exists pre post,
    s = pre +:+ ":" +:+ g +:+ ":" +:+ post /\
    g <> EmptyString /\
    all_chars in_class g = true /\
    word_at (last_char before pre) = false /\
    word_at (first_char post) = false.
Proof.
  induction 1 as [|before c s segs _ _ IH|before g' rest segs Hm _ IH].
  - by intros ?%elem_of_nil.
  - intros [[=] | Hin]%elem_of_cons.
    destruct (IH Hin) as (pre & post & -> & ? & ? & ? & ?).
    exists (String c pre), post. by rewrite app_cons.
  - intros [[= ->] | Hin]%elem_of_cons.
    + destruct Hm as (rest' & E & ? & ? & ? & ?).
      exists EmptyString, rest'. by rewrite app_empty_l.
    + destruct (IH Hin) as (pre & post & -> & ? & ? & Hb & ?).
      exists (whole g' +:+ pre), post. rewrite app_assoc'.
      split_and?; try done.
      rewrite last_char_app, whole_cons. cbn [last_char].
      by rewrite last_char_app_colon.
Qed.
(** ** The handler of [outdated] *)

Lemma handle_outdated_skip instance w :
  truthy_str (remote_url instance) && negb (truthy_file (file instance)) = false ->
  handle_outdated instance w = (instance, Some updated, w).
Proof. intros H. unfold handle_outdated, bind, ret. by rewrite H. Qed.

Lemma handle_outdated_fetch instance w :
  truthy_str (remote_url instance) && negb (truthy_file (file instance)) = true ->
  handle_outdated instance w =
    let r := mkRequest (default EmptyString (remote_url instance))
                       (REMOTE_TIMEOUT SETUP)
                       (EMOJI_MAX_IMAGE_FILESIZE_KB SETUP * 1024) in
    let w1 := mkWorld (db w) (clock w) (requests w ++ [r]) in
    if truthy_file (remote r).1 then
      let instance' :=
        set_updated_at (set_mimetype (set_file instance (remote r).1) (remote r).2)
                       (clock w) in
      (instance', Some updated,
       mkWorld (<[pk instance := instance']> (db w)) (clock w) (requests w ++ [r]))
    else (instance, Some updated, w1).
Proof.
  intros H. unfold handle_outdated, bind, ret, get_remote_file, save. rewrite H.
  cbn zeta. destruct (remote _) as [f m]. cbn [fst snd].
  by destruct (truthy_file f).
Qed.

(** C1, as the code has it: for a record in state [outdated] with a remote
    URL and no cached file, a fetch that returns a file puts the file and
    the media type on the record, saves the record, and the record moves to
    [updated]; a fetch that returns no file leaves the record and its stored
    row as they were, and the handler returns [updated] all the same, so the
    record moves to [updated] too. *)
Theorem handle_outdated_remote instance w :
  state instance = outdated ->
  truthy_str (remote_url instance) = true ->
  truthy_file (file instance) = false ->
  let r := mkRequest (default EmptyString (remote_url instance))
                     (REMOTE_TIMEOUT SETUP)
                     (EMOJI_MAX_IMAGE_FILESIZE_KB SETUP * 1024) in
  let handled := handle_outdated instance w in
  let attempted := transition_attempt instance w in
  requests handled.2 = requests w ++ [r] /\
  (truthy_file (remote r).1 = true ->
     handled.1.2 = Some updated /\
     file handled.1.1 = (remote r).1 /\
     mimetype handled.1.1 = (remote r).2 /\
     db handled.2 !! pk instance = Some handled.1.1 /\
     state attempted.1 = updated /\
     db attempted.2 !! pk instance = Some attempted.1 /\
     file attempted.1 = (remote r).1 /\
     mimetype attempted.1 = (remote r).2) /\
  (truthy_file (remote r).1 = false ->
     handled = (instance, Some updated,
                mkWorld (db w) (clock w) (requests w ++ [r])) /\
     state attempted.1 = updated).
Proof.
  intros Hst Hurl Hfile r handled attempted.
  assert (truthy_str (remote_url instance) && negb (truthy_file (file instance)) = true)
    as Hgo by (by rewrite Hurl, Hfile).
  subst handled attempted. unfold transition_attempt, bind. rewrite Hst.
  rewrite (handle_outdated_fetch _ _ Hgo). cbn zeta. fold r.
  destruct (truthy_file (remote r).1) eqn:Hf; cbn [fst snd requests db].
  - split; [done|]. split; [|done]. intros _.
    unfold transition_perform. cbn [fst snd db pk set_updated_at set_mimetype set_file set_state file mimetype state].
    rewrite lookup_insert_eq. rewrite lookup_alter_eq, lookup_insert_eq.
    done.
  - split; [done|]. split; [done|]. intros _. done.
Qed.

(** C4: a record in state [outdated] that has a cached file, or no remote
    URL, moves to [updated]; no request is sent, the handler hands the
    record back as it was and the stored rows are not written by it. *)
Theorem handle_outdated_nothing_to_fetch instance w :
  state instance = outdated ->
  truthy_file (file instance) = true \/ truthy_str (remote_url instance) = false ->
  handle_outdated instance w = (instance, Some updated, w) /\
  let attempted := transition_attempt instance w in
  attempted.1 = set_state instance updated /\
  state attempted.1 = updated /\
  requests attempted.2 = requests w /\
  db attempted.2 = alter (fun row => set_state row updated) (pk instance) (db w).
Proof.
  intros Hst Hcase.
  assert (truthy_str (remote_url instance) && negb (truthy_file (file instance)) = false)
    as Hskip.
  { destruct Hcase as [-> | ->]; [apply andb_false_r | done]. }
  split; [by apply handle_outdated_skip|].
  unfold transition_attempt, bind. rewrite Hst, (handle_outdated_skip _ _ Hskip).
  done.
Qed.

(** C10: for a record in state [outdated] with a remote URL and no cached
    file, a fetch that returns no file leaves the record as it was, its
    [file] and [mimetype] included, and writes no row. *)
Theorem handle_outdated_failed_fetch_frame instance w :
  state instance = outdated ->
  truthy_str (remote_url instance) = true ->
  truthy_file (file instance) = false ->
  truthy_file (remote (mkRequest (default EmptyString (remote_url instance))
                                 (REMOTE_TIMEOUT SETUP)
                                 (EMOJI_MAX_IMAGE_FILESIZE_KB SETUP * 1024))).1 = false ->
  let handled := handle_outdated instance w in
  handled.1.1 = instance /\
  file handled.1.1 = file instance /\
  mimetype handled.1.1 = mimetype instance /\
  db handled.2 = db w /\
  clock handled.2 = clock w.
Proof.
  intros Hst Hurl Hfile Hfail handled. subst handled.
  rewrite handle_outdated_fetch by (by rewrite Hurl, Hfile).
  cbn zeta. rewrite Hfail. done.
Qed.

(** ** Validation and usability *)

(** C5: [clean] accepts a record exactly when [local] equals "the domain is
    null"; a local record with a domain and a non-local record without one
    are rejected with a validation error. *)
Theorem clean_local_iff_no_domain (self : Emoji) :
  (clean self = inr tt <-> local self = bool_decide (domain self = None)) /\
  (local self = true /\ domain self <> None \/
   local self = false /\ domain self = None ->
   clean self = inl (ValidationError "Must be local or have a domain")).
Proof.
  unfold clean. split.
  - destruct (local self), (bool_decide (domain self = None)); simpl; split; done.
  - intros [[-> Hd] | [-> Hd]].
    + by rewrite bool_decide_eq_false_2.
    + by rewrite bool_decide_eq_true_2.
Qed.

(** C6: a record is usable exactly when its visibility is explicitly
    public, or unset while the configuration shows unreviewed emoji; with
    unset visibility, usability is the configuration flag. *)
Theorem is_usable_policy (self : Emoji) :
  (is_usable self = true <->
     public self = Some true \/
     (public self = None /\ emoji_unreviewed_are_public system = true)) /\
  (public self = None -> is_usable self = emoji_unreviewed_are_public system).
Proof.
  unfold is_usable. split; [|by intros ->].
  destruct (public self) as [[|]|]; simpl.
  - split; [by left | done].
  - split; [done | by intros [|[]]].
  - split; [by right | by intros [|[]]].
Qed.

(** C9: a usable record with neither cached file nor remote URL is rendered
    as an [<img>] element whose source is the static placeholder, whose
    class is [emoji] and whose alternative text is [Emoji] and the shortcode
    (it does not fail); a record that is not usable is rendered as its
    shortcode between colons. *)
Theorem as_html_fallbacks (self : Emoji) :
  let q := String "034"%char EmptyString in
  (is_usable self = true ->
   truthy_file (file self) = false ->
   truthy_str (remote_url self) = false ->
   full_url self = StaticAbsoluteUrl "img/blank-emoji-128.png" /\
   as_html self =
     "<img src=" +:+ q +:+
     relative (StaticAbsoluteUrl "img/blank-emoji-128.png") +:+ q +:+
     " class=" +:+ q +:+ "emoji" +:+ q +:+
     " alt=" +:+ q +:+ "Emoji " +:+ shortcode self +:+ q +:+ ">") /\
  (is_usable self = false -> as_html self = ":" +:+ shortcode self +:+ ":").
Proof.
  intros q. unfold as_html, full_url, fullcode. split.
  - intros -> -> ->. done.
  - intros ->. done.
Qed.

(** ** Query sets *)

Lemma elem_of_qs_filter q qs row :
  row ∈ qs_filter q qs <-> row ∈ qs /\ Q_holds q row = true.
Proof.
  unfold qs_filter. rewrite !list_elem_of_In, filter_In. done.
Qed.

Lemma Q_visible_is_usable (row : Emoji) :
  Q_holds (if emoji_unreviewed_are_public system
           then Q_or (Q_public true) (Q_public_isnull true)
           else Q_public true) row = is_usable row.
Proof.
  unfold is_usable.
  destruct (emoji_unreviewed_are_public system); simpl;
    destruct (public row) as [[|]|]; done.
Qed.

(** C2, as the code has it: for a remote domain the query set [usable]
    keeps exactly the rows of that domain that satisfy the usable policy;
    for the local scope (no domain, or a local domain) it keeps exactly the
    rows with [local] set, whatever their visibility.  The lookup of
    [emojis_from_content] adds the locality of the scope and the
    shortcodes. *)
Theorem usable_by_scope (qs : list Emoji) (scope : option Domain) (row : Emoji) :
  (none_or_local scope = true ->
     (row ∈ usable qs scope <-> row ∈ qs /\ local row = true)) /\
  (forall d, scope = Some d -> domain_local d = false ->
     (row ∈ usable qs scope <->
        row ∈ qs /\ is_usable row = true /\ domain row = Some (domain_pk d))) /\
  (forall content,
     row ∈ emojis_from_content content scope <->
       row ∈ objects /\
       local row = none_or_local scope /\
       shortcode row ∈ shortcodes content /\
       (none_or_local scope = false ->
          is_usable row = true /\
          exists d, scope = Some d /\ domain row = Some (domain_pk d))).
Proof.
  assert (forall qs, none_or_local scope = true ->
            (row ∈ usable qs scope <-> row ∈ qs /\ local row = true)) as Hloc.
  { intros qs' Hs. unfold usable. rewrite Hs.
    destruct scope as [d|]; simpl in Hs.
    - rewrite Hs. simpl. rewrite elem_of_qs_filter. simpl.
      by destruct (local row).
    - rewrite elem_of_qs_filter. simpl. by destruct (local row). }
  assert (forall qs d, scope = Some d -> domain_local d = false ->
            (row ∈ usable qs scope <->
               row ∈ qs /\ is_usable row = true /\ domain row = Some (domain_pk d)))
    as Hrem.
  { intros qs' d -> Hd. unfold usable. simpl. rewrite Hd. simpl.
    rewrite !elem_of_qs_filter, Q_visible_is_usable. simpl.
    rewrite bool_decide_eq_true. tauto. }
  split; [apply Hloc|]. split; [apply Hrem|].
  intros content. unfold emojis_from_content.
  rewrite elem_of_qs_filter. simpl. rewrite bool_decide_eq_true.
  destruct (none_or_local scope) eqn:Hs.
  - rewrite (Hloc _ eq_refl), elem_of_qs_filter. simpl.
    destruct (local row); simpl; split; intros; destruct_and?; split_and?; done.
  - destruct scope as [d|]; [|done]. simpl in Hs.
    rewrite (Hrem _ d eq_refl Hs), elem_of_qs_filter. simpl.
    destruct (local row); simpl; split.
    + intros [[[_ [=]] _] _].
    + intros (_ & [=] & _).
    + intros [[[? _] [? ?]] ?]. split_and?; try done. intros _. split; [done|]. eauto.
    + intros (? & _ & ? & H). destruct (H eq_refl) as (? & d' & [= <-] & ?).
      split_and?; done.
Qed.

(** ** The renderer's argument *)

(** C3, as the code has it: a truthy value that is neither a list nor a
    query set makes the renderer raise a type error; a falsy value of any
    shape (an empty tuple, an empty string, zero, [False]) is taken like
    [None]. *)
Theorem imageify_emojis_unsupported content (emojis : PyValue) include_local :
  supported emojis = false ->
  (truthy emojis = true ->
     imageify_emojis content emojis include_local =
       inl (TypeError "Unsupported type for emojis")) /\
  (truthy emojis = false ->
     imageify_emojis content emojis include_local =
       imageify_emojis content PyNone include_local).
Proof.
  intros Hsup. unfold imageify_emojis, emoji_set_of. split; intros ->.
  - destruct emojis; done.
  - done.
Qed.

(** ** Extraction and rendering *)

(** C7: the shortcodes of a text are taken from the text with its markup
    stripped.  Every code is the lower-cased group of an occurrence in the
    stripped text: a colon, one or more characters of the class, a colon,
    where the character in front of the first colon (if any) and the
    character behind the second colon (if any) are not word characters.  The
    stripped text is cut from left to right at such occurrences, and the
    codes are exactly the lower-cased groups of the cut, without duplicates,
    in ascending order.  A text that strips to [:Foo: bar :foo: :Bar:] gives
    [bar] and [foo]; in
    [a:no: :yes: :no:b 1:30: :Ok-1_(x): :no!: _:no:] only [:yes:] and
    [:Ok-1_(x):] count: the others touch a word character or hold a character
    outside the class. *)
Theorem shortcodes_extracted (content : string) :
  let codes := shortcodes content in
  StronglySorted String.le codes /\
  NoDup codes /\
  (forall code, code ∈ codes ->
     exists pre g post,
       strip_html content = pre +:+ ":" +:+ g +:+ ":" +:+ post /\
       code = lower g /\
       g <> EmptyString /\
       all_chars in_class g = true /\
       word_at (last_char None pre) = false /\
       word_at (first_char post) = false) /\
  (exists segs,
     Cut None (strip_html content) segs /\
     join (seg_text <$> segs) = strip_html content /\
     forall code, code ∈ codes <-> exists g, Hit g ∈ segs /\ code = lower g) /\
  (forall code, code ∈ codes -> lower code = code) /\
  (strip_html content = ":Foo: bar :foo: :Bar:" -> codes = ["bar"; "foo"]) /\
  (strip_html content = "a:no: :yes: :no:b 1:30: :Ok-1_(x): :no!: _:no:" ->
   codes = ["ok-1_(x)"; "yes"]).
Proof.
  intros codes.
  assert (forall code, code ∈ codes <->
            exists g, Hit g ∈ scan None (strip_html content) 0 /\ code = lower g)
    as Hmem.
  { intros code. unfold codes, shortcodes.
    rewrite merge_sort_Permutation, elem_of_elements, elem_of_list_to_set,
      list_elem_of_fmap.
    split; intros (g & H1 & H2); exists g.
    - by rewrite <- elem_of_findall.
    - by rewrite elem_of_findall. }
  split_and?.
  - apply (StronglySorted_merge_sort _).
  - unfold codes, shortcodes. rewrite merge_sort_Permutation. apply NoDup_elements.
  - intros code (g & Hin & ->)%Hmem.
    destruct (Cut_occurrence _ _ _ _ (scan_Cut None (strip_html content)) Hin)
      as (pre & post & ? & ? & ? & ? & ?).
    exists pre, g, post. done.
  - exists (scan None (strip_html content) 0). split_and?;
      [apply scan_Cut | eapply Cut_join, scan_Cut | done].
  - intros code (g & _ & ->)%Hmem. apply lower_idemp.
  - intros H. unfold codes, shortcodes. rewrite H. by vm_compute.
  - intros H. unfold codes, shortcodes. rewrite H. by vm_compute.
Qed.



(** ** More on the handler of [outdated] *)

(** X1: whatever the record and the answer of the remote, the handler
    returns [updated], sends at most one request (to the record's remote URL,
    with the configured timeout and size limit in bytes), leaves the clock
    and every row of another primary key alone, and changes no field of the
    record besides [file], [mimetype] and the [auto_now] stamp. *)
Theorem handle_outdated_footprint instance w :
  let handled := handle_outdated instance w in
  let r := mkRequest (default EmptyString (remote_url instance))
                     (REMOTE_TIMEOUT SETUP)
                     (EMOJI_MAX_IMAGE_FILESIZE_KB SETUP * 1024) in
  handled.1.2 = Some updated /\
  (requests handled.2 = requests w \/ requests handled.2 = requests w ++ [r]) /\
  clock handled.2 = clock w /\
  (forall k, k <> pk instance -> db handled.2 !! k = db w !! k) /\
  pk handled.1.1 = pk instance /\
  shortcode handled.1.1 = shortcode instance /\
  domain handled.1.1 = domain instance /\
  local handled.1.1 = local instance /\
  public handled.1.1 = public instance /\
  object_uri handled.1.1 = object_uri instance /\
  remote_url handled.1.1 = remote_url instance /\
  category handled.1.1 = category instance /\
  state handled.1.1 = state instance /\
  created handled.1.1 = created instance.
Proof.
  intros handled r. subst handled.
  destruct (truthy_str (remote_url instance) && negb (truthy_file (file instance)))
    eqn:Hgo.
  - rewrite (handle_outdated_fetch _ _ Hgo). cbn zeta. fold r.
    destruct (truthy_file (remote r).1); cbn [fst snd requests clock db].
    + split_and?; try done; [by right|].
      intros k Hk. by rewrite lookup_insert_ne.
    + split_and?; try done. by right.
  - rewrite (handle_outdated_skip _ _ Hgo). split_and?; try done. by left.
Qed.


(** ** More on the pattern *)

Lemma colon_not_word : is_word ":" = false.
Proof. reflexivity. Qed.

Lemma match_at_None_here before c s :
  (negb (Ascii.eqb c ":") || word_at before) = true ->
  match_at before (String c s) = None.
Proof.
  intros H. simpl. destruct (Ascii.eqb c ":") eqn:Hc.
  - apply Ascii.eqb_eq in Hc as ->. simpl in H.
    unfold non_boundary. simpl. rewrite H, colon_not_word. done.
  - by rewrite andb_false_r.
Qed.

Lemma scan_all_literal before s :
  colons_follow_words before s = true ->
  scan before s 0 = Lit <$> list_ascii_of_string s.
Proof.
  revert before. induction s as [|c s IH]; intros before; [done|].
  cbn [colons_follow_words]. intros [Hc Hs]%andb_true_iff.
  rewrite (scan_lit _ _ _ (match_at_None_here _ _ _ Hc)).
  cbn [list_ascii_of_string]. rewrite fmap_cons. f_equal. by apply IH.
Qed.

Lemma sub_all_literal repl s :
  foldr (fun seg out =>
           match seg with
           | Lit c => String c out
           | Hit g => repl g +:+ out
           end) EmptyString (Lit <$> list_ascii_of_string s) = s.
Proof.
  induction s as [|c s IH]; [done|].
  cbn [list_ascii_of_string]. rewrite fmap_cons. cbn [foldr]. by rewrite IH.
Qed.

Lemma elem_of_shortcodes content code :
  code ∈ shortcodes content <->
  exists g, Hit g ∈ scan None (strip_html content) 0 /\ code = lower g.
Proof.
  unfold shortcodes.
  rewrite merge_sort_Permutation, elem_of_elements, elem_of_list_to_set,
    list_elem_of_fmap.
  split; intros (g & H1 & H2); exists g.
  - by rewrite <- elem_of_findall.
  - by rewrite elem_of_findall.
Qed.

Lemma shortcodes_nil content :
  findall (strip_html content) = [] -> shortcodes content = [].
Proof. unfold shortcodes. intros ->. done. Qed.

Lemma qs_filter_no_code qs : qs_filter (Q_shortcode_in []) qs = [].
Proof.
  unfold qs_filter. induction qs as [|row qs IH]; [done|].
  cbn [List.filter Q_holds].
  rewrite bool_decide_eq_false_2; [done|]. apply not_elem_of_nil.
Qed.

(** X3: in a text whose colons all stand right after a word character (a
    time of day, a URL scheme, [key:value]) nothing is recognised: the
    renderer returns the text as it is, whatever the records, and a content
    that strips to such a text yields no shortcode and no record. *)
Theorem nothing_after_word_characters content (emojis : PyValue) include_local domain :
  (colons_follow_words None content = true ->
   forall emoji_set,
     emoji_set_of emojis include_local = inr emoji_set ->
     imageify_emojis content emojis include_local = inr content) /\
  (colons_follow_words None (strip_html content) = true ->
   shortcodes content = [] /\ emojis_from_content content domain = []).
Proof.
  split.
  - intros Hc emoji_set Hset. unfold imageify_emojis. rewrite Hset. f_equal.
    unfold sub. rewrite (scan_all_literal _ _ Hc). apply sub_all_literal.
  - intros Hc.
    assert (shortcodes content = []) as Hnil.
    { apply shortcodes_nil. unfold findall. rewrite (scan_all_literal _ _ Hc).
      generalize (list_ascii_of_string (strip_html content)).
      intros l. by induction l. }
    split; [done|]. unfold emojis_from_content. rewrite Hnil.
    apply qs_filter_no_code.
Qed.

Lemma Cut_Hit before s segs g :
  Cut before s segs -> Hit g ∈ segs ->
  g <> EmptyString /\ all_chars in_class g = true.
Proof.
  induction 1 as [|before c s segs _ _ IH|before g' rest segs Hm _ IH].
  - by intros ?%elem_of_nil.
  - intros [[=] | Hin]%elem_of_cons. by apply IH.
  - intros [[= ->] | Hin]%elem_of_cons; [|by apply IH].
    destruct Hm as (_ & _ & ? & ? & _). done.
Qed.

Lemma lower_char_class c : in_class c = true -> in_lower_class (lower_char c) = true.
Proof. destruct c as [[] [] [] [] [] [] [] []]; intros H; try discriminate H; reflexivity. Qed.

Lemma lower_class g :
  all_chars in_class g = true -> all_chars in_lower_class (lower g) = true.
Proof.
  induction g as [|c g IH]; [done|]. simpl. intros [Hc Hg]%andb_true_iff.
  by rewrite lower_char_class, IH.
Qed.

(** X4: every shortcode taken from a content is non-empty and made of the
    characters [a-z], [0-9], [(], [_], [)] and [-] only; so
    [emojis_from_content] never returns a record whose shortcode is empty or
    holds an upper-case letter or any other character. *)
Theorem shortcodes_alphabet content domain :
  (forall code, code ∈ shortcodes content ->
                code <> EmptyString /\ all_chars in_lower_class code = true) /\
  (forall row, row ∈ emojis_from_content content domain ->
               shortcode row <> EmptyString /\
               all_chars in_lower_class (shortcode row) = true).
Proof.
  assert (forall code, code ∈ shortcodes content ->
            code <> EmptyString /\ all_chars in_lower_class code = true) as H.
  { intros code (g & Hin & ->)%elem_of_shortcodes.
    destruct (Cut_Hit _ _ _ _ (scan_Cut None (strip_html content)) Hin) as [Hne Hall].
    split; [|by apply lower_class]. by destruct g. }
  split; [done|]. intros row Hrow. apply H.
  unfold emojis_from_content in Hrow. apply elem_of_qs_filter in Hrow as [_ Hq].
  simpl in Hq. by apply bool_decide_eq_true in Hq.
Qed.

(** ** More on the lookup table of the renderer *)

Lemma possible_matches_fold (m : gmap string string) (l : list Emoji) code :
  foldl (fun m emoji => <[shortcode emoji := as_html emoji]> m) m l !! code =
  match last (List.filter (fun e => bool_decide (shortcode e = code)) l) with
  | Some e => Some (as_html e)
  | None => m !! code
  end.
Proof.
  revert m. induction l as [|e l IH]; intros m; [done|].
  cbn [foldl List.filter]. rewrite IH. case_bool_decide as Hc.
  - rewrite last_cons.
    destruct (last (List.filter _ l)); [done|]. by rewrite <- Hc, lookup_insert_eq.
  - destruct (last (List.filter _ l)); [done|]. by rewrite lookup_insert_ne.
Qed.

(** The entry of a code is the markup of the last usable record with that
    shortcode. *)
Lemma possible_matches_last emoji_set code :
  possible_matches emoji_set !! code =
  as_html <$> last (List.filter (fun e => bool_decide (shortcode e = code))
                                (List.filter is_usable emoji_set)).
Proof.
  unfold possible_matches. rewrite possible_matches_fold.
  destruct (last _); [done|]. by rewrite lookup_empty.
Qed.

Lemma filter_app' {A} (p : A -> bool) (l1 l2 : list A) :
  List.filter p (l1 ++ l2) = List.filter p l1 ++ List.filter p l2.
Proof. apply List.filter_app. Qed.

Lemma possible_matches_app l1 l2 code :
  possible_matches (l1 ++ l2) !! code =
  match possible_matches l2 !! code with
  | Some html => Some html
  | None => possible_matches l1 !! code
  end.
Proof.
  rewrite !possible_matches_last, !filter_app', last_app.
  by destruct (last (List.filter _ (List.filter is_usable l2))).
Qed.

Lemma emoji_set_of_inr (emojis : PyValue) include_local emoji_set :
  emoji_set_of emojis include_local = inr emoji_set ->
  emoji_set = (if include_local then locals.*2 else []) ++ records_of emojis.
Proof.
  unfold emoji_set_of. destruct (truthy emojis) eqn:Ht.
  - destruct emojis; try done; by intros [= <-].
  - intros [= <-].
    assert (records_of emojis = []) as ->; [|by rewrite app_nil_r].
    destruct emojis as [| | | |items|items|items]; try done; by destruct items.
Qed.

Lemma sub_ext repl1 repl2 text :
  (forall g, Hit g ∈ scan None text 0 -> repl1 g = repl2 g) ->
  sub repl1 text = sub repl2 text.
Proof.
  unfold sub. generalize (scan None text 0). intros segs.
  induction segs as [|[c|g] segs IH]; intros H; [done|..]; cbn [foldr].
  - rewrite IH; [done|]. intros g Hg. apply H. by right.
  - rewrite IH, (H g); [done|by left|]. intros g' Hg. apply H. by right.
Qed.

Lemma sub_whole text : sub whole text = text.
Proof.
  unfold sub. rewrite sub_segments.
  exact (Cut_join _ _ _ (scan_Cut None text)).
Qed.

(** X5: with the local cache included, an occurrence is rendered from the
    extra records when one of them is usable and bears the code, and from the
    local cache only otherwise; among several usable records with one
    shortcode the last one wins. *)
Theorem extras_before_locals (emojis : PyValue) emoji_set code :
  emoji_set_of emojis true = inr emoji_set ->
  possible_matches emoji_set !! code =
    match possible_matches (records_of emojis) !! code with
    | Some html => Some html
    | None => possible_matches locals.*2 !! code
    end /\
  possible_matches (records_of emojis) !! code =
    as_html <$> last (List.filter (fun e => bool_decide (shortcode e = code))
                                  (List.filter is_usable (records_of emojis))).
Proof.
  intros ->%emoji_set_of_inr. split.
  - apply possible_matches_app.
  - apply possible_matches_last.
Qed.

(** X6: when none of the records at hand is usable, the renderer returns the
    text as it is. *)
Theorem imageify_emojis_nothing_usable content (emojis : PyValue) include_local emoji_set :
  emoji_set_of emojis include_local = inr emoji_set ->
  (forall e, e ∈ emoji_set -> is_usable e = false) ->
  imageify_emojis content emojis include_local = inr content.
Proof.
  intros Hset Hno. unfold imageify_emojis. rewrite Hset. f_equal.
  rewrite <- (sub_whole content) at 2. apply sub_ext. intros g _.
  unfold replacer. cbn zeta. rewrite possible_matches_last.
  assert (List.filter is_usable emoji_set = []) as ->; [|done].
  clear Hset. induction emoji_set as [|e l IH]; [done|]. cbn [List.filter].
  rewrite (Hno e) by left. apply IH. intros e' He'. apply Hno. by right.
Qed.

(** X7: a record whose stored shortcode is not in lower case is never used
    by the renderer: taking it out of the records changes no output. *)
Theorem imageify_emojis_skips_unnormalised content x :
  lower (shortcode x) <> shortcode x ->
  (forall l1 l2,
     sub (replacer (possible_matches (l1 ++ x :: l2))) content =
     sub (replacer (possible_matches (l1 ++ l2))) content) /\
  (forall extras include_local,
     imageify_emojis content (PyList (x :: extras)) include_local =
     imageify_emojis content (PyList extras) include_local).
Proof.
  intros Hx.
  assert (forall l1 l2,
            sub (replacer (possible_matches (l1 ++ x :: l2))) content =
            sub (replacer (possible_matches (l1 ++ l2))) content) as H.
  { intros l1 l2. apply sub_ext. intros g _. unfold replacer. cbn zeta.
    rewrite !possible_matches_last, !filter_app'. cbn [List.filter].
    destruct (is_usable x); [|done]. cbn [List.filter].
    rewrite bool_decide_eq_false_2; [done|].
    intros Hc. apply Hx. by rewrite Hc, lower_idemp. }
  split; [done|]. intros extras include_local.
  unfold imageify_emojis, emoji_set_of. cbn [truthy length].
  rewrite bool_decide_eq_false_2 by done. cbn [negb]. rewrite H.
  destruct extras as [|y extras]; [|done]. cbn [truthy length].
  rewrite bool_decide_eq_true_2 by done. cbn [negb]. by rewrite app_nil_r.
Qed.

(** ** The cache of local emoji *)

Lemma dict_set_keys k v d :
  (dict_set k v d).*1 = if bool_decide (k ∈ d.*1) then d.*1 else d.*1 ++ [k].
Proof.
  induction d as [|[k' v'] d IH]; [done|]. cbn [dict_set].
  destruct (String.eqb k' k) eqn:E.
  - apply String.eqb_eq in E as ->. rewrite bool_decide_eq_true_2; [done|]. by left.
  - apply String.eqb_neq in E. rewrite !fmap_cons, IH. cbn [fst].
    case_bool_decide as H1; case_bool_decide as H2; try done.
    + exfalso. apply H2. by right.
    + apply elem_of_cons in H2 as [->|]; done.
Qed.

Lemma dict_set_elem k v d k' v' :
  (k', v') ∈ dict_set k v d -> (k' = k /\ v' = v) \/ (k', v') ∈ d.
Proof.
  induction d as [|[k0 v0] d IH]; cbn [dict_set].
  - intros [[= -> ->] | []%elem_of_nil]%elem_of_cons. by left.
  - destruct (String.eqb k0 k).
    + intros [[= -> ->] | H]%elem_of_cons; [by left|]. right. by right.
    + intros [[= -> ->] | H]%elem_of_cons; [right; by left|].
      destruct (IH H) as [|]; [by left|]. right. by right.
Qed.

Lemma dict_set_fresh k v d : k ∉ d.*1 -> dict_set k v d = d ++ [(k, v)].
Proof.
  induction d as [|[k' v'] d IH]; [done|]. rewrite fmap_cons. cbn [fst dict_set].
  intros [Hne Hd]%not_elem_of_cons.
  destruct (String.eqb k' k) eqn:E; [by apply String.eqb_eq in E|].
  by rewrite IH.
Qed.

Lemma load_fold_inv (P : Emoji -> Prop) rows d :
  NoDup d.*1 ->
  (forall k e, (k, e) ∈ d -> k = shortcode e /\ P e) ->
  (forall e, e ∈ rows -> P e) ->
  let d' := foldl (fun d x => dict_set (shortcode x) x d) d rows in
  NoDup d'.*1 /\
  (forall k e, (k, e) ∈ d' -> k = shortcode e /\ P e) /\
  (forall k, k ∈ d.*1 -> k ∈ d'.*1) /\
  (forall e, e ∈ rows -> shortcode e ∈ d'.*1).
Proof.
  revert d. induction rows as [|x rows IH]; intros d Hnd Hd Hrows; cbn [foldl].
  - split_and?; try done. by intros e ?%elem_of_nil.
  - destruct (IH (dict_set (shortcode x) x d)) as (H1 & H2 & H3 & H4).
    + rewrite dict_set_keys. case_bool_decide as Hk; [done|].
      apply NoDup_app. split_and?; [done| |apply NoDup_singleton].
      intros k Hin ->%list_elem_of_singleton. done.
    + intros k e [[-> ->] | Hin]%dict_set_elem; [|by apply Hd].
      split; [done|]. apply Hrows. by left.
    + intros e He. apply Hrows. by right.
    + assert (forall k, k ∈ d.*1 -> k ∈ (dict_set (shortcode x) x d).*1) as Hkeep.
      { intros k Hk. rewrite dict_set_keys. case_bool_decide; [done|].
        apply elem_of_app. by left. }
      assert (shortcode x ∈ (dict_set (shortcode x) x d).*1) as Hx.
      { rewrite dict_set_keys. case_bool_decide; [done|].
        apply elem_of_app. right. by left. }
      split_and?; try done.
      * intros k Hk. by apply H3, Hkeep.
      * intros e [-> | He]%elem_of_cons; [by apply H3|by apply H4].
Qed.

Lemma load_fold_distinct rows d :
  NoDup (d.*1 ++ (shortcode <$> rows)) ->
  foldl (fun d x => dict_set (shortcode x) x d) d rows =
  d ++ ((fun e => (shortcode e, e)) <$> rows).
Proof.
  revert d. induction rows as [|x rows IH]; intros d Hnd; cbn [foldl].
  - by rewrite app_nil_r.
  - rewrite fmap_cons in Hnd. rewrite dict_set_fresh.
    + rewrite IH; [by rewrite <- app_assoc|].
      rewrite fmap_app, <- app_assoc. done.
    + apply NoDup_app in Hnd as (_ & Hd & _). intros Hin. apply (Hd _ Hin). by left.
Qed.

Lemma local_rows_spec row :
  row ∈ qs_filter (Q_local true) (usable objects None) <->
  row ∈ objects /\ local row = true.
Proof.
  unfold usable. cbn [none_or_local]. rewrite !elem_of_qs_filter. cbn [Q_holds].
  destruct (local row); simpl; tauto.
Qed.

(** X8: the cache built by [load_locals] has one entry per shortcode; every
    entry is keyed by the shortcode of its record, and the record is a local
    row of the table; the shortcode of every local row is a key, whether the
    row is usable or not.  When the local rows bear distinct shortcodes the
    cache lists them all, in the order of the table. *)
Theorem load_locals_entries :
  NoDup load_locals.*1 /\
  (forall k e, (k, e) ∈ load_locals ->
               k = shortcode e /\ e ∈ objects /\ local e = true) /\
  (forall e, e ∈ objects -> local e = true -> shortcode e ∈ load_locals.*1) /\
  (NoDup (shortcode <$> qs_filter (Q_local true) objects) ->
   load_locals = (fun e => (shortcode e, e)) <$> qs_filter (Q_local true) objects).
Proof.
  unfold load_locals.
  destruct (load_fold_inv (fun e => e ∈ objects /\ local e = true)
              (qs_filter (Q_local true) (usable objects None)) [])
    as (H1 & H2 & _ & H4).
  - apply NoDup_nil_2.
  - by intros k e ?%elem_of_nil.
  - by intros e ?%local_rows_spec.
  - split_and?; try done.
    + intros e He Hl. apply H4. by apply local_rows_spec.
    + assert (qs_filter (Q_local true) (usable objects None)
              = qs_filter (Q_local true) objects) as ->.
      { unfold usable. cbn [none_or_local]. unfold qs_filter.
        generalize objects. intros l. induction l as [|e l IH]; [done|].
        cbn [List.filter]. destruct (Q_holds (Q_local true) e) eqn:E; [|done].
        cbn [List.filter]. by rewrite E, IH. }
      intros Hnd. by rewrite load_fold_distinct.
Qed.

(** ** URLs handed out *)

(** X9: [full_url] is the static placeholder exactly when the record is not
    usable or has neither a cached file nor a remote URL; so the file and the
    remote URL of a record that is not usable are never handed out.  For a
    usable record the cached file goes before the proxy path of the remote
    URL. *)
Theorem full_url_exposure (self : Emoji) :
  (full_url self = StaticAbsoluteUrl "img/blank-emoji-128.png" <->
     is_usable self = false \/
     (truthy_file (file self) = false /\ truthy_str (remote_url self) = false)) /\
  (is_usable self = true -> truthy_file (file self) = true ->
     full_url self = AutoAbsoluteUrl (url_of (file self))) /\
  (is_usable self = true -> truthy_file (file self) = false ->
   truthy_str (remote_url self) = true ->
     full_url self =
       AutoAbsoluteUrl ("/proxy/emoji/" +:+ pretty (pk self) +:+ "/")).
Proof.
  unfold full_url.
  destruct (is_usable self), (truthy_file (file self)),
    (truthy_str (remote_url self)); split_and?; try done;
    (split; [try done|]); try (by left); try (by right);
    by intros [|[]].
Qed.

(** X10: in the API object, [static_url] is the remote URL of the record
    whenever it has one, whether the record is usable or not, and [url]
    otherwise; [url] is the placeholder for a record that is not usable and
    the URL of the cached file for a usable record that has one.  So a hidden
    record with a remote URL still gives that URL out as [static_url]. *)
Theorem to_mastodon_json_urls (self : Emoji) :
  let data := to_mastodon_json self in
  (forall u, remote_url self = Some u -> u <> EmptyString -> m_static_url data = u) /\
  (truthy_str (remote_url self) = false -> m_static_url data = m_url data) /\
  (is_usable self = false ->
     m_url data = absolute site (StaticAbsoluteUrl "img/blank-emoji-128.png")) /\
  (is_usable self = true -> truthy_file (file self) = true ->
     m_url data = absolute site (AutoAbsoluteUrl (url_of (file self)))).
Proof.
  unfold to_mastodon_json. cbn [m_url m_static_url].
  split_and?.
  - intros u -> Hu. simpl. by destruct u.
  - by intros ->.
  - intros Hu. unfold full_url. by rewrite Hu.
  - intros Hu Hf. unfold full_url. by rewrite Hu, Hf.
Qed.

(** ** Lookup and creation from a tag *)

Lemma get_by_object_uri_unique w k r uri :
  db w !! k = Some r ->
  object_uri r = Some uri ->
  (forall k' r', db w !! k' = Some r' -> object_uri r' = Some uri -> k' = k) ->
  get_by_object_uri uri w = Found r.
Proof.
  intros Hk Hr Huniq. unfold get_by_object_uri.
  assert (filter (fun kv : Z * Emoji => object_uri kv.2 = Some uri) (db w)
          = {[k := r]}) as ->.
  { apply map_eq. intros i. apply option_eq. intros x.
    rewrite map_lookup_filter_Some, lookup_singleton_Some. cbn [snd]. split.
    - intros [Hi Hx]. assert (i = k) as -> by eauto. split; congruence.
    - intros [<- <-]. done. }
  by rewrite map_to_list_singleton.
Qed.

Lemma get_by_object_uri_none w uri :
  (forall k r, db w !! k = Some r -> object_uri r <> Some uri) ->
  get_by_object_uri uri w = DoesNotExist.
Proof.
  intros Hno. unfold get_by_object_uri.
  assert (filter (fun kv : Z * Emoji => object_uri kv.2 = Some uri) (db w) = ∅) as ->.
  { apply map_eq. intros i. rewrite lookup_empty. apply map_lookup_filter_None.
    right. intros x Hi Hx. by apply (Hno i x). }
  by rewrite map_to_list_empty.
Qed.

(** X11: when exactly one stored record bears the tag's id as its object
    URI, [by_ap_tag] returns that record and changes nothing, whatever the
    domain passed, the rest of the tag and the [create] flag: the stored
    record is not brought up to date from the tag. *)
Theorem by_ap_tag_found w k r domain data create :
  db w !! k = Some r ->
  object_uri r = Some (tag_id data) ->
  (forall k' r', db w !! k' = Some r' ->
                 object_uri r' = Some (tag_id data) -> k' = k) ->
  by_ap_tag domain data create w = (inr r, w).
Proof.
  intros Hk Hr Hu. unfold by_ap_tag.
  by rewrite (get_by_object_uri_unique _ _ _ _ Hk Hr Hu).
Qed.

(** X12: when no stored record bears the tag's id and creation is not asked
    for, [by_ap_tag] raises a key error that names the id, and changes
    nothing. *)
Theorem by_ap_tag_missing w domain data :
  (forall k r, db w !! k = Some r -> object_uri r <> Some (tag_id data)) ->
  by_ap_tag domain data false w =
    (inl (KeyError ("No emoji with ID " +:+ tag_id data) data), w).
Proof.
  intros Hno. unfold by_ap_tag. by rewrite (get_by_object_uri_none _ _ Hno).
Qed.

(** Creation, once the lookup has found nothing. *)
Lemma by_ap_tag_create w d data :
  (forall k r, db w !! k = Some r -> object_uri r <> Some (tag_id data)) ->
  by_ap_tag d data true w =
    if violates site (db w) (new_row d data w) then (inl IntegrityError, w)
    else (inr (new_row d data w),
          mkWorld (<[next_pk site (db w) := new_row d data w]> (db w))
                  (clock w) (requests w)).
Proof.
  intros Hno. unfold by_ap_tag. by rewrite (get_by_object_uri_none _ _ Hno).
Qed.

Lemma length_take_chars n s : (String.length (take_chars n s) <= n)%nat.
Proof.
  revert n. induction s as [|c s IH]; intros [|n]; simpl; try lia.
  specialize (IH n). lia.
Qed.

Lemma first_char_lstrip s : first_char (lstrip_colons s) <> Some ":"%char.
Proof.
  induction s as [|c s IH]; [done|]. cbn [lstrip_colons].
  destruct (Ascii.eqb c ":") eqn:E; [done|].
  apply Ascii.eqb_neq in E. simpl. congruence.
Qed.

Lemma first_char_rstrip s :
  first_char (rstrip_colons s) = None \/
  first_char (rstrip_colons s) = first_char s.
Proof.
  destruct s as [|c s]; [by left|]. cbn [rstrip_colons].
  destruct (rstrip_colons s); [|by right].
  destruct (Ascii.eqb c ":"); [by left|by right].
Qed.

Lemma last_char_rstrip s before :
  rstrip_colons s <> EmptyString ->
  last_char before (rstrip_colons s) <> Some ":"%char.
Proof.
  revert before. induction s as [|c s IH]; intros before; [done|].
  cbn [rstrip_colons]. destruct (rstrip_colons s) as [|c' s'] eqn:E.
  - destruct (Ascii.eqb c ":") eqn:Ec; [done|]. intros _.
    apply Ascii.eqb_neq in Ec. simpl. congruence.
  - intros _. cbn [last_char]. apply (IH (Some c)). done.
Qed.

(** X13: when no stored record bears the tag's id, creation is asked for and
    the database takes the row under a fresh key, [by_ap_tag] stores one new
    record and sends nothing.  The record passes [clean], is local exactly
    when the domain is, starts in [outdated] without a file and with unset
    visibility (so it is usable exactly when unreviewed emoji are public),
    carries the tag's id and icon URL, a category of at most 100 characters
    and a shortcode without a colon at either end.  Any later lookup of the
    same id returns this record and changes nothing. *)
Theorem by_ap_tag_creates w d data :
  (forall k r, db w !! k = Some r -> object_uri r <> Some (tag_id data)) ->
  db w !! next_pk site (db w) = None ->
  violates site (db w) (new_row d data w) = false ->
  exists row w',
    by_ap_tag d data true w = (inr row, w') /\
    db w' = <[pk row := row]> (db w) /\
    pk row = next_pk site (db w) /\
    requests w' = requests w /\
    clean row = inr tt /\
    local row = domain_local d /\
    state row = outdated /\
    file row = None /\
    public row = None /\
    is_usable row = emoji_unreviewed_are_public system /\
    object_uri row = Some (tag_id data) /\
    remote_url row = Some (icon_url (tag_icon data)) /\
    mimetype row = icon_mediaType (tag_icon data) /\
    (exists c, category row = Some c /\ (String.length c <= 100)%nat) /\
    first_char (shortcode row) <> Some ":"%char /\
    last_char None (shortcode row) <> Some ":"%char /\
    (forall d' data' create',
       tag_id data' = tag_id data ->
       by_ap_tag d' data' create' w' = (inr row, w')).
Proof.
  intros Hno Hfresh Hok. rewrite (by_ap_tag_create _ _ _ Hno), Hok.
  eexists _, _. split; [reflexivity|]. unfold new_row.
  cbn [db requests pk clean local domain state file public object_uri remote_url
       mimetype category shortcode].
  split_and?; try done.
  - unfold clean. cbn [local domain]. by destruct (domain_local d).
  - eexists. split; [done|]. apply length_take_chars.
  - unfold strip_colons.
    destruct (first_char_rstrip (lstrip_colons (str_lower site (tag_name data))))
      as [-> | ->]; [done|]. apply first_char_lstrip.
  - unfold strip_colons.
    destruct (rstrip_colons (lstrip_colons (str_lower site (tag_name data))))
      eqn:E; [done|]. rewrite <- E. apply last_char_rstrip. by rewrite E.
  - intros d' data' create' Hid. unfold by_ap_tag. rewrite Hid.
    erewrite get_by_object_uri_unique; [done| | |]; cbn [db].
    + apply lookup_insert_eq.
    + done.
    + intros k' r' Hk' Hr'.
      destruct (decide (k' = next_pk site (db w))) as [|Hne]; [done|].
      rewrite lookup_insert_ne in Hk' by done. by destruct (Hno _ _ Hk').
Qed.

(** X14: a stored record with an object URI that no other record shares is
    found again from its own tag, for every domain and [create] flag.  A
    record without an object URI is tagged with an id under the main domain;
    when no record bears that id as object URI, its tag is not resolved:
    without [create] the lookup raises a key error, and with [create] a
    second record is stored under another primary key. *)
Theorem to_ap_tag_round_trip w r d create :
  db w !! pk r = Some r ->
  (forall u, object_uri r = Some u -> u <> EmptyString ->
     (forall k' r', db w !! k' = Some r' -> object_uri r' = Some u -> k' = pk r) ->
     tag_id (to_ap_tag r) = u /\
     by_ap_tag d (to_ap_tag r) create w = (inr r, w)) /\
  (truthy_str (object_uri r) = false ->
     let id := "https://" +:+ MAIN_DOMAIN site +:+ "/emoji/" +:+ pretty (pk r) +:+ "/" in
     tag_id (to_ap_tag r) = id /\
     ((forall k r', db w !! k = Some r' -> object_uri r' <> Some id) ->
      by_ap_tag d (to_ap_tag r) false w =
        (inl (KeyError ("No emoji with ID " +:+ id) (to_ap_tag r)), w) /\
      (violates site (db w) (new_row d (to_ap_tag r) w) = false ->
       db w !! next_pk site (db w) = None ->
       exists row w',
         by_ap_tag d (to_ap_tag r) true w = (inr row, w') /\
         pk row <> pk r /\
         shortcode row = strip_colons (str_lower site (shortcode r)) /\
         db w' !! pk r = Some r /\
         db w' !! pk row = Some row))).
Proof.
  intros Hr. split.
  - intros u Hu Hne Huniq.
    assert (tag_id (to_ap_tag r) = u) as Hid.
    { unfold to_ap_tag. cbn [tag_id]. rewrite Hu. simpl. by destruct u. }
    split; [done|]. unfold by_ap_tag. rewrite Hid.
    by rewrite (get_by_object_uri_unique _ _ _ _ Hr Hu Huniq).
  - intros Hfalsy id.
    assert (tag_id (to_ap_tag r) = id) as Hid.
    { unfold to_ap_tag. cbn [tag_id]. by rewrite Hfalsy. }
    split; [done|]. intros Hno. rewrite <- Hid in Hno. split.
    + unfold by_ap_tag. rewrite (get_by_object_uri_none _ _ Hno). by rewrite Hid.
    + intros Hok Hfresh. rewrite (by_ap_tag_create _ _ _ Hno), Hok.
      eexists _, _. split; [reflexivity|]. cbn [pk db new_row shortcode].
      assert (next_pk site (db w) <> pk r) as Hne by congruence.
      split_and?; [done|done| |].
      * by rewrite lookup_insert_ne.
      * by rewrite lookup_insert_eq.
Qed.

(** X15: a record just created from a tag with a non-empty icon URL is one
    the handler of [outdated] fetches: its first run sends one request, to
    the icon URL of the tag, and a file that comes back is stored on the new
    row. *)
Theorem by_ap_tag_then_handle_outdated w d data :
  (forall k r, db w !! k = Some r -> object_uri r <> Some (tag_id data)) ->
  violates site (db w) (new_row d data w) = false ->
  icon_url (tag_icon data) <> EmptyString ->
  let r := mkRequest (icon_url (tag_icon data)) (REMOTE_TIMEOUT SETUP)
                     (EMOJI_MAX_IMAGE_FILESIZE_KB SETUP * 1024) in
  let created := by_ap_tag d data true w in
  let handled := handle_outdated (new_row d data w) created.2 in
  created.1 = inr (new_row d data w) /\
  requests handled.2 = requests w ++ [r] /\
  (truthy_file (remote r).1 = true ->
     exists stored, db handled.2 !! next_pk site (db w) = Some stored /\
                    file stored = (remote r).1 /\
                    mimetype stored = (remote r).2 /\
                    shortcode stored = shortcode (new_row d data w)).
Proof.
  intros Hno Hok Hurl r created handled. subst created handled.
  rewrite (by_ap_tag_create _ _ _ Hno), Hok. cbn [fst snd]. split; [done|].
  rewrite handle_outdated_fetch.
  2:{ cbn [new_row remote_url file truthy_str truthy_file negb].
      destruct (icon_url (tag_icon data)); done. }
  cbn zeta.
  cbn [new_row remote_url default from_option id requests clock db pk]. fold r.
  destruct (truthy_file (remote r).1); cbn [fst snd requests db].
  - split; [done|]. intros _. eexists. rewrite lookup_insert_eq. done.
  - done.
Qed.

Lemma lower_app (s t : string) : lower (s +:+ t) = lower s +:+ lower t.
Proof. induction s as [|c s IH]; [done|]. rewrite app_cons. simpl. by rewrite IH. Qed.

Lemma lower_class_colon_free g :
  all_chars in_class g = true -> colon_free (lower g) = true.
Proof.
  intros H%lower_class. unfold colon_free.
  induction (lower g) as [|c s IH]; [done|]. simpl in *.
  apply andb_true_iff in H as [Hc Hs]. rewrite (IH Hs), andb_true_r.
  destruct c as [[] [] [] [] [] [] [] []]; try discriminate Hc; reflexivity.
Qed.

Lemma rstrip_colon_free s : colon_free s = true -> rstrip_colons (s +:+ ":") = s.
Proof.
  unfold colon_free. induction s as [|c s IH]; [done|]. cbn [all_chars].
  intros [Hc Hs]%andb_true_iff. rewrite app_cons. cbn [rstrip_colons].
  rewrite (IH Hs). destruct s; [|done].
  apply negb_true_iff in Hc. by rewrite Hc.
Qed.

Lemma lstrip_colon_free s :
  colon_free s = true -> lstrip_colons (String ":" s) = s.
Proof.
  unfold colon_free. cbn [lstrip_colons]. rewrite Ascii.eqb_refl.
  destruct s as [|c s]; [done|]. cbn [all_chars lstrip_colons].
  intros [Hc _]%andb_true_iff.
  apply negb_true_iff in Hc. by rewrite Hc.
Qed.

Lemma colon_free_app_colon s :
  colon_free s = true -> s <> EmptyString ->
  lstrip_colons (s +:+ ":") = s +:+ ":".
Proof.
  unfold colon_free. destruct s as [|c s]; [done|]. cbn [all_chars].
  intros [Hc _]%andb_true_iff _. rewrite app_cons. cbn [lstrip_colons].
  apply negb_true_iff in Hc. by rewrite Hc.
Qed.

Lemma strip_colons_whole g :
  all_chars in_class g = true -> g <> EmptyString ->
  strip_colons (lower (whole g)) = lower g.
Proof.
  intros Hall Hne. pose proof (lower_class_colon_free _ Hall) as Hfree.
  rewrite whole_cons. cbn [lower]. rewrite lower_app.
  change (lower_char ":") with ":"%char. change (lower ":") with ":".
  unfold strip_colons. cbn [lstrip_colons]. rewrite Ascii.eqb_refl.
  rewrite colon_free_app_colon; [by apply rstrip_colon_free|done|].
  by destruct g.
Qed.

Lemma scan_whole g :
  all_chars in_class g = true -> g <> EmptyString ->
  scan None (whole g) 0 = [Hit g].
Proof.
  intros Hall Hne.
  assert (Matches None (whole g +:+ EmptyString) g) as Hm.
  { exists EmptyString. split_and?; try done. apply whole_app. }
  rewrite <- (app_empty_r (whole g)). by rewrite (scan_hit _ _ _ Hm).
Qed.

(** X16: a tag named [:G:], with [G] a group of the pattern, gives the
    shortcode [lower G] (for a name that [str.lower] treats as ASCII); a
    usable record with that shortcode is the one the renderer puts where a
    text says [:G:]. *)
Theorem tag_name_meets_renderer g row :
  all_chars in_class g = true ->
  g <> EmptyString ->
  str_lower site (whole g) = lower (whole g) ->
  strip_colons (str_lower site (whole g)) = lower g /\
  (shortcode row = strip_colons (str_lower site (whole g)) ->
   is_usable row = true ->
   imageify_emojis (whole g) (PyList [row]) false = inr (as_html row)).
Proof.
  intros Hall Hne Hlow. rewrite Hlow.
  pose proof (strip_colons_whole _ Hall Hne) as Hs. split; [done|].
  rewrite Hs. intros Hcode Hu. unfold imageify_emojis, emoji_set_of.
  cbn [truthy length]. rewrite bool_decide_eq_false_2 by done. cbn [negb app].
  f_equal. unfold sub. rewrite (scan_whole _ Hall Hne). cbn [foldr].
  unfold replacer. cbn zeta. rewrite possible_matches_last. cbn [List.filter].
  rewrite Hu. cbn [List.filter]. rewrite bool_decide_eq_true_2 by done.
  simpl. apply app_empty_r.
Qed.

Lemma keyed_values (l : list Emoji) :
  ((fun e => (shortcode e, e)) <$> l).*2 = l.
Proof. induction l as [|e l IH]; [done|]. rewrite !fmap_cons, IH. done. Qed.

(** X17: the table the renderer builds from the cache of [load_locals] has a
    key only where a usable local row of the table bears it; when the local
    rows bear distinct shortcodes, every usable local row has its key. *)
Theorem load_locals_table code :
  (is_Some (possible_matches load_locals.*2 !! code) ->
   exists e, e ∈ objects /\ local e = true /\ is_usable e = true /\
             shortcode e = code) /\
  (NoDup (shortcode <$> qs_filter (Q_local true) objects) ->
   forall e, e ∈ objects -> local e = true -> is_usable e = true ->
             possible_matches load_locals.*2 !! shortcode e = Some (as_html e)).
Proof.
  split.
  - intros (e & Hin & Hu & Hc)%possible_matches_is_Some.
    apply list_elem_of_fmap in Hin as ([k e'] & -> & Hin). cbn [snd] in *.
    destruct (load_fold_inv (fun e => e ∈ objects /\ local e = true)
                (qs_filter (Q_local true) (usable objects None)) [])
      as (_ & H2 & _).
    + apply NoDup_nil_2.
    + by intros k0 e0 ?%elem_of_nil.
    + by intros e0 ?%local_rows_spec.
    + destruct (H2 _ _ Hin) as (_ & ? & ?). by exists e'.
  - intros Hnd e He Hl Hu. unfold load_locals.
    assert (qs_filter (Q_local true) (usable objects None)
            = qs_filter (Q_local true) objects) as ->.
    { unfold usable. cbn [none_or_local]. unfold qs_filter.
      generalize objects. intros l. induction l as [|x l IH]; [done|].
      cbn [List.filter]. destruct (Q_holds (Q_local true) x) eqn:E; [|done].
      cbn [List.filter]. by rewrite E, IH. }
    rewrite load_fold_distinct by done. rewrite app_nil_l, keyed_values.
    rewrite possible_matches_last.
    assert (e ∈ List.filter is_usable (qs_filter (Q_local true) objects)) as Hin.
    { apply list_elem_of_In, filter_In. split; [|done].
      apply list_elem_of_In, elem_of_qs_filter. split; [done|].
      simpl. by rewrite Hl. }
    assert (NoDup (shortcode <$> List.filter is_usable
                                   (qs_filter (Q_local true) objects))) as Hnd'.
    { revert Hnd. generalize (qs_filter (Q_local true) objects). intros l.
      induction l as [|x l IH]; [done|]. rewrite fmap_cons.
      intros [Hx Hl']%NoDup_cons. cbn [List.filter].
      destruct (is_usable x); [|by apply IH]. rewrite fmap_cons.
      apply NoDup_cons. split; [|by apply IH]. intros Hin'. apply Hx.
      apply list_elem_of_fmap in Hin' as (y & -> & Hy).
      apply list_elem_of_fmap. exists y. split; [done|].
      apply list_elem_of_In, filter_In in Hy as [Hy _]. by apply list_elem_of_In. }
    revert Hin Hnd'. generalize (List.filter is_usable
                                   (qs_filter (Q_local true) objects)).
    intros l Hin Hnd'. induction l as [|x l IH]; [by apply elem_of_nil in Hin|].
    rewrite fmap_cons in Hnd'. apply NoDup_cons in Hnd' as [Hx Hnd'].
    cbn [List.filter]. apply elem_of_cons in Hin as [<- | Hin].
    + rewrite bool_decide_eq_true_2 by done.
      assert (List.filter (fun e0 => bool_decide (shortcode e0 = shortcode e)) l = [])
        as ->; [|done].
      clear IH Hnd'. induction l as [|y l IH]; [done|]. cbn [List.filter].
      rewrite fmap_cons in Hx. apply not_elem_of_cons in Hx as [Hne Hx].
      rewrite bool_decide_eq_false_2 by done. by apply IH.
    + rewrite bool_decide_eq_false_2; [by apply IH|].
      intros Hc. apply Hx. rewrite Hc. by apply list_elem_of_fmap_2.
Qed.

End Emoji.

(** ** The theorems at the sample data *)

(** The remote serves the picture: the record is saved with it and moves on. *)
Lemma handle_outdated_remote_witness :
  let attempted := transition_attempt sample_setup remote_up blob_remote world0 in
  state attempted.1 = updated /\
  db attempted.2 !! 7 = Some attempted.1 /\
  file attempted.1 =
    Some (mkFile "https://remote.test/blob.png" "/media/emoji/blob.png" "PNG") /\
  mimetype attempted.1 = Some "image/png".
Proof.
  destruct (handle_outdated_remote sample_setup remote_up blob_remote world0
              eq_refl eq_refl eq_refl) as (_ & Hok & _).
  destruct (Hok eq_refl) as (_ & _ & _ & _ & Hst & Hdb & Hfile & Hmime).
  repeat split; assumption.
Defined.

(** The remote refuses: the handler still returns [updated], and the record
    leaves [outdated] without a picture. *)
Lemma handle_outdated_failed_fetch_moves_on :
  state blob_remote = outdated /\
  truthy_str (remote_url blob_remote) = true /\
  truthy_file (file blob_remote) = false /\
  truthy_file (remote_down (mkRequest "https://remote.test/blob.png" 5 (1024 * 1024))).1
    = false /\
  (handle_outdated sample_setup remote_down blob_remote world0).1.2 = Some updated /\
  state (transition_attempt sample_setup remote_down blob_remote world0).1 <> outdated /\
  file (transition_attempt sample_setup remote_down blob_remote world0).1 = None.
Proof. repeat split; try reflexivity. vm_compute. discriminate. Qed.

Lemma handle_outdated_nothing_to_fetch_witness :
  let attempted := transition_attempt sample_setup remote_up plain_local world0 in
  state attempted.1 = updated /\ requests attempted.2 = [].
Proof.
  destruct (handle_outdated_nothing_to_fetch sample_setup remote_up plain_local world0
              eq_refl (or_intror eq_refl)) as (_ & _ & Hst & Hreq & _).
  split; assumption.
Defined.

Lemma handle_outdated_failed_fetch_frame_witness :
  let handled := handle_outdated sample_setup remote_down blob_remote world0 in
  handled.1.1 = blob_remote /\ db handled.2 = db world0.
Proof.
  destruct (handle_outdated_failed_fetch_frame sample_setup remote_down blob_remote
              world0 eq_refl eq_refl eq_refl eq_refl) as (Hi & _ & _ & Hdb & _).
  split; assumption.
Defined.

Lemma clean_local_iff_no_domain_witness :
  clean smile_local = inr tt /\
  clean (set_state blob_remote updated) = inr tt /\
  clean (mkEmoji 9 "odd" (Some "remote.test") true None None None None None None
                 outdated 0 0)
  = inl (ValidationError "Must be local or have a domain").
Proof.
  split_and?.
  - by apply (proj1 (clean_local_iff_no_domain smile_local)).
  - by apply (proj1 (clean_local_iff_no_domain (set_state blob_remote updated))).
  - apply (proj2 (clean_local_iff_no_domain _)). left. by split.
Defined.

Lemma is_usable_policy_witness :
  is_usable config_on blob_remote = true /\ is_usable config_off blob_remote = false.
Proof.
  split.
  - by apply (proj2 (is_usable_policy config_on blob_remote)).
  - by apply (proj2 (is_usable_policy config_off blob_remote)).
Defined.

Lemma as_html_fallbacks_witness :
  as_html config_on sample_relative plain_local
  = "<img src=" +:+
    String "034" ("/static/img/blank-emoji-128.png" +:+
    String "034" (" class=" +:+
    String "034" ("emoji" +:+
    String "034" (" alt=" +:+
    String "034" ("Emoji plain" +:+
    String "034" ">"))))) /\
  as_html config_on sample_relative hidden_local = ":secret:".
Proof.
  split.
  - by apply (proj1 (as_html_fallbacks config_on sample_relative plain_local)).
  - by apply (proj2 (as_html_fallbacks config_on sample_relative hidden_local)).
Defined.

(** For the local scope a hidden local emoji is selected, although it is not
    usable. *)
Lemma usable_local_scope_returns_hidden :
  hidden_local ∈ usable config_on [smile_local; hidden_local] None /\
  hidden_local ∈ emojis_from_content config_on no_unicode_word strip_tags
                   [smile_local; hidden_local] "<p>:secret:</p>" None /\
  public hidden_local <> Some true /\
  public hidden_local <> None /\
  is_usable config_on hidden_local = false.
Proof.
  split_and?; try done.
  - vm_compute. apply list_elem_of_further, list_elem_of_here.
  - vm_compute. apply list_elem_of_here.
Qed.

Lemma usable_by_scope_witness :
  blob_remote ∈ usable config_on [smile_local; hidden_local; blob_remote]
                  (Some remote_domain) /\
  hidden_local ∈ usable config_on [smile_local; hidden_local; blob_remote] None.
Proof.
  split.
  - apply (proj1 (proj2 (usable_by_scope config_on no_unicode_word strip_tags []
                           [smile_local; hidden_local; blob_remote]
                           (Some remote_domain) blob_remote))
                 remote_domain eq_refl eq_refl).
    split_and?; [|done..]. do 2 apply list_elem_of_further. apply list_elem_of_here.
  - apply (proj1 (usable_by_scope config_on no_unicode_word strip_tags []
                    [smile_local; hidden_local; blob_remote] None hidden_local)
                 eq_refl).
    split; [|done]. apply list_elem_of_further, list_elem_of_here.
Defined.

(** An empty tuple is not a supported shape, and the renderer takes it
    without a word. *)
Lemma imageify_emojis_takes_empty_tuple :
  supported (PyTuple []) = false /\
  imageify_emojis config_on sample_relative no_unicode_word [("smile", smile_local)]
                  "Hi :smile:" (PyTuple []) false
  = inr "Hi :smile:".
Proof. split; reflexivity. Qed.

Lemma imageify_emojis_unsupported_witness :
  imageify_emojis config_on sample_relative no_unicode_word [("smile", smile_local)]
                  "Hi :smile:" (PyTuple [smile_local]) true
  = inl (TypeError "Unsupported type for emojis") /\
  imageify_emojis config_on sample_relative no_unicode_word [("smile", smile_local)]
                  "Hi :smile:" (PyStr EmptyString) true
  = imageify_emojis config_on sample_relative no_unicode_word [("smile", smile_local)]
                    "Hi :smile:" PyNone true.
Proof.
  split.
  - by apply (proj1 (imageify_emojis_unsupported config_on sample_relative
                       no_unicode_word [("smile", smile_local)] "Hi :smile:"
                       (PyTuple [smile_local]) true eq_refl)).
  - by apply (proj2 (imageify_emojis_unsupported config_on sample_relative
                       no_unicode_word [("smile", smile_local)] "Hi :smile:"
                       (PyStr EmptyString) true eq_refl)).
Defined.

Lemma shortcodes_extracted_witness :
  shortcodes no_unicode_word strip_tags "<p>:Foo: bar <b>:foo:</b> :Bar:</p>"
  = ["bar"; "foo"] /\
  shortcodes no_unicode_word strip_tags
             "<p>a:no: :yes: :no:b</p> 1:30: <i>:Ok-1_(x):</i> :no!: _:no:"
  = ["ok-1_(x)"; "yes"].
Proof.
  split.
  - apply (shortcodes_extracted no_unicode_word strip_tags
             "<p>:Foo: bar <b>:foo:</b> :Bar:</p>").
    reflexivity.
  - apply (shortcodes_extracted no_unicode_word strip_tags
             "<p>a:no: :yes: :no:b</p> 1:30: <i>:Ok-1_(x):</i> :no!: _:no:").
    reflexivity.
Defined.


(** The renderer on the text [Hi :smile:]. *)
Example imageify_emojis_smile :
  imageify_emojis config_on sample_relative no_unicode_word [("smile", smile_local)]
                  "Hi :smile:" PyNone true
  = inr ("Hi " +:+ img "/media/emoji/smile.png" "smile").
Proof. reflexivity. Qed.

Example imageify_emojis_no_record :
  imageify_emojis config_on sample_relative no_unicode_word [("secret", hidden_local)]
                  "Hi :smile: :Secret:" (PyList [hidden_local]) true
  = inr "Hi :smile: :Secret:".
Proof. reflexivity. Qed.

Example imageify_emojis_extra_wins :
  imageify_emojis config_on sample_relative no_unicode_word [("smile", smile_local)]
                  ":SMILE:!" (PyQuerySet [set_file smile_local None]) true
  = inr (img "/static/img/blank-emoji-128.png" "smile" +:+ "!").
Proof. reflexivity. Qed.

Example findall_overlap :
  findall no_unicode_word ":a:b: x:c: :-:-: :d::e: (:f:)" = ["-"; "d"; "e"; "f"].
Proof. reflexivity. Qed.

Example next_attempt_outdated : next_attempt outdated 1000 = Some 1300.
Proof. reflexivity. Qed.

(** ** The configuration flag *)

(** X18: making unreviewed emoji public never takes a record away: a record
    usable with the flag off is usable with it on, every row [usable] selects
    with the flag off it selects with it on, and a record whose visibility is
    set does not depend on the flag at all. *)
Theorem unreviewed_flag_monotone (off on : Config) qs scope row :
  emoji_unreviewed_are_public off = false ->
  emoji_unreviewed_are_public on = true ->
  (is_usable off row = true -> is_usable on row = true) /\
  (row ∈ usable off qs scope -> row ∈ usable on qs scope) /\
  (public row <> None -> is_usable off row = is_usable on row) /\
  (none_or_local scope = true -> usable off qs scope = usable on qs scope).
Proof.
  intros Hoff Hon.
  assert (is_usable off row = true -> is_usable on row = true) as Hmono.
  { unfold is_usable. rewrite Hoff, Hon. by destruct (public row) as [[|]|]. }
  split_and?; [done| | |].
  - unfold usable. destruct (none_or_local scope) eqn:Hs; [done|].
    destruct scope as [d|]; [|done]. cbn [none_or_local] in Hs. rewrite Hs.
    cbn [negb]. rewrite !elem_of_qs_filter, !Q_visible_is_usable. tauto.
  - unfold is_usable. rewrite Hoff, Hon. by destruct (public row) as [[|]|].
  - intros Hs. unfold usable. by rewrite Hs.
Qed.

(** ** The further theorems at the sample data *)

Ltac sample_rows Hk :=
  unfold world0 in Hk; cbn [db] in Hk;
  apply lookup_insert_Some in Hk as [[<- <-] | [_ Hk]]; [done|];
  apply lookup_insert_Some in Hk as [[<- <-] | [_ Hk]]; [done|];
  by rewrite lookup_empty in Hk.


Lemma nothing_after_word_characters_witness :
  imageify_emojis config_on sample_relative no_unicode_word [("smile", smile_local)]
                  "at 12:30:45 see http://x.test/a:smile:" PyNone true
  = inr "at 12:30:45 see http://x.test/a:smile:".
Proof.
  by apply (proj1 (nothing_after_word_characters config_on sample_relative
                     no_unicode_word [("smile", smile_local)] strip_tags []
                     "at 12:30:45 see http://x.test/a:smile:" PyNone true None)
                  eq_refl [smile_local]).
Defined.

Lemma extras_before_locals_witness :
  possible_matches config_on sample_relative
                   [smile_local; set_file smile_local None] !! "smile"
  = Some (img "/static/img/blank-emoji-128.png" "smile").
Proof.
  rewrite (proj1 (extras_before_locals config_on sample_relative
                    [("smile", smile_local)] (PyList [set_file smile_local None])
                    [smile_local; set_file smile_local None] "smile" eq_refl)).
  reflexivity.
Defined.

Lemma imageify_emojis_nothing_usable_witness :
  imageify_emojis config_off sample_relative no_unicode_word [("secret", hidden_local)]
                  "Hi :secret: :blob:" (PyList [blob_remote]) true
  = inr "Hi :secret: :blob:".
Proof.
  apply (imageify_emojis_nothing_usable config_off sample_relative no_unicode_word
           [("secret", hidden_local)] "Hi :secret: :blob:" (PyList [blob_remote]) true
           [hidden_local; blob_remote] eq_refl).
  intros e [-> | [-> | []%elem_of_nil]%elem_of_cons]%elem_of_cons; reflexivity.
Defined.

Lemma imageify_emojis_skips_unnormalised_witness :
  imageify_emojis config_on sample_relative no_unicode_word []
                  "Hi :Shout: :shout:" (PyList [shout_local; smile_local]) false
  = imageify_emojis config_on sample_relative no_unicode_word []
                    "Hi :Shout: :shout:" (PyList [smile_local]) false.
Proof.
  apply (proj2 (imageify_emojis_skips_unnormalised config_on sample_relative
                  no_unicode_word [] "Hi :Shout: :shout:" shout_local
                  ltac:(discriminate))).
Defined.

Lemma by_ap_tag_found_witness :
  by_ap_tag sample_site (mkDomain "elsewhere.test" false) blob_tag true world0
  = (inr blob_remote, world0).
Proof.
  apply (by_ap_tag_found sample_site world0 7 blob_remote); [reflexivity..|].
  intros k' r' Hk' Hr'. unfold world0 in Hk'; cbn [db] in Hk'.
  apply lookup_insert_Some in Hk' as [[<- <-] | [_ Hk']]; [done|].
  apply lookup_insert_Some in Hk' as [[<- <-] | [_ Hk']]; [done|].
  by rewrite lookup_empty in Hk'.
Defined.

Lemma by_ap_tag_missing_witness :
  by_ap_tag sample_site remote_domain party_tag false world0
  = (inl (KeyError "No emoji with ID https://remote.test/emoji/party" party_tag),
     world0).
Proof.
  apply (by_ap_tag_missing sample_site world0 remote_domain party_tag).
  intros k r Hk. sample_rows Hk.
Defined.

Lemma by_ap_tag_creates_witness :
  exists row w',
    by_ap_tag sample_site remote_domain party_tag true world0 = (inr row, w') /\
    pk row = 8 /\ shortcode row = "party" /\ clean row = inr tt /\
    by_ap_tag sample_site remote_domain party_tag false w' = (inr row, w').
Proof.
  destruct (by_ap_tag_creates config_on sample_site world0 remote_domain party_tag)
    as (row & w' & Hby & _ & Hpk & _ & Hclean & _ & _ & _ & _ & _ & _ & _ & _ & _
        & _ & _ & Hagain).
  - intros k r Hk. sample_rows Hk.
  - reflexivity.
  - reflexivity.
  - exists row, w'. split_and?; [done|done| |done|by apply Hagain].
    assert (by_ap_tag sample_site remote_domain party_tag true world0
            = (inr (new_row sample_site remote_domain party_tag world0),
               mkWorld (<[8 := new_row sample_site remote_domain party_tag world0]>
                          (db world0)) 1000 [])) as H by reflexivity.
    rewrite H in Hby. by injection Hby as <- _.
Defined.

Lemma to_ap_tag_round_trip_witness :
  by_ap_tag sample_site remote_domain (to_ap_tag config_on sample_site blob_remote)
            false world0
  = (inr blob_remote, world0).
Proof.
  apply (proj1 (to_ap_tag_round_trip config_on sample_site world0 blob_remote
                  remote_domain false eq_refl)
               "https://remote.test/emoji/blob" eq_refl ltac:(discriminate)).
  intros k' r' Hk' Hr'. unfold world0 in Hk'; cbn [db] in Hk'.
  apply lookup_insert_Some in Hk' as [[<- <-] | [_ Hk']]; [done|].
  apply lookup_insert_Some in Hk' as [[<- <-] | [_ Hk']]; [done|].
  by rewrite lookup_empty in Hk'.
Defined.

Lemma by_ap_tag_then_handle_outdated_witness :
  let created := by_ap_tag sample_site remote_domain party_tag true world0 in
  requests (handle_outdated sample_setup remote_up
              (new_row sample_site remote_domain party_tag world0) created.2).2
  = [mkRequest "https://remote.test/party.gif" 5 (1024 * 1024)].
Proof.
  apply (by_ap_tag_then_handle_outdated sample_setup remote_up sample_site world0
           remote_domain party_tag).
  - intros k r Hk. sample_rows Hk.
  - reflexivity.
  - discriminate.
Defined.

Lemma tag_name_meets_renderer_witness :
  strip_colons (str_lower sample_site ":Blob:") = "blob" /\
  imageify_emojis config_on sample_relative no_unicode_word [] ":Blob:"
                  (PyList [blob_remote]) false
  = inr (as_html config_on sample_relative blob_remote).
Proof.
  pose proof (tag_name_meets_renderer config_on sample_relative no_unicode_word []
                sample_site "Blob" blob_remote eq_refl ltac:(discriminate) eq_refl)
    as [H1 H2].
  split; [exact H1|]. by apply H2.
Defined.

Lemma unreviewed_flag_monotone_witness :
  is_usable config_on smile_local = true /\
  smile_local ∈ usable config_on [smile_local; blob_remote] None.
Proof.
  destruct (unreviewed_flag_monotone config_off config_on [smile_local; blob_remote]
              None smile_local eq_refl eq_refl) as (H1 & H2 & _).
  split; [by apply H1|]. apply H2. vm_compute. apply list_elem_of_here.
Defined.

(** The cache of [load_locals] on a table with a hidden and a remote row. *)
Example load_locals_sample :
  load_locals config_off [smile_local; hidden_local; blob_remote; plain_local]
  = [("smile", smile_local); ("secret", hidden_local); ("plain", plain_local)].
Proof. reflexivity. Qed.

Example to_mastodon_json_hidden :
  let data := to_mastodon_json config_off sample_site
                (set_state blob_remote updated) in
  m_url data = "https://example.test/static/img/blank-emoji-128.png" /\
  m_static_url data = "https://remote.test/blob.png".
Proof. split; reflexivity. Qed.
